(** * The logparser input plugin and its grok parser

    A shallow embedding of

      - plugins/inputs/logparser/grok/grok.go   (package grok), and
      - plugins/inputs/logparser/logparser.go   (package logparser),

    with the properties of line parsing, of custom-pattern loading and of
    the plugin's [Start] that the specification states.

    Conventions of the embedding.

      - A Go string is a byte string: Rocq's [string].
      - A Go map is a [gmap]; a [range] over it visits its entries in an
        order the language leaves open, so every loop over a map takes the
        order as an argument ([range_order]).
      - A Go result [(value, error)] is a sum: [inl err] when the error is
        not nil, [inr value] otherwise; a result that is only an [error] is
        an [option].  A call that may panic returns a [run].
      - A pointer or interface that may be nil is an [option].
      - The libraries the two files call (vjeantet/grok, gobwas/glob,
        hpcloud/tail, telegraf's own internal, globpath and metric
        packages) are the fields of the class [Libraries]: a theorem
        stated for every instance holds whatever they do. *)

From Stdlib Require Import Ascii String.
From stdpp Require Import gmap strings list fin_maps.

Open Scope string_scope.
Open Scope list_scope.
Open Scope stdpp_scope.

(** A call either returns its results or panics.  A function whose only
    result is an [error] returns an [option]: [None] is Go's nil. *)
Inductive run (A : Type) : Type :=
| Returns (a : A)
| Panics (msg : string).
Arguments Returns {A} a.
Arguments Panics {A} msg.

(** The dynamic type of a value stored in a [map[string]interface{}] of
    fields. *)
Inductive FieldValue : Type :=
| VString (s : string)
| VInt64 (i : Z)
| VFloat64 (mantissa exponent : Z)
| VBool (b : bool).

Definition nil_dereference : string :=
  "invalid memory address or nil pointer dereference".
Definition index_out_of_range : string := "index out of range".

(** ** The standard-library calls of [addCustomPatterns] *)

(** Bytes by their code. *)
Definition byte_is (c : ascii) (n : N) : bool := N.eqb (N_of_ascii c) n.
Definition byte_in (c : ascii) (lo hi : N) : bool :=
  N.leb lo (N_of_ascii c) && N.leb (N_of_ascii c) hi.

(** [unicode.IsSpace] on the runes UTF-8 writes in one, two and three bytes:
    U+0009..U+000D and U+0020; U+0085 and U+00A0; U+1680, U+2000..U+200A,
    U+2028, U+2029, U+202F, U+205F and U+3000. *)
Definition space1 (a : ascii) : bool := byte_in a 9 13 || byte_is a 32.
Definition space2 (a b : ascii) : bool :=
  byte_is a 194 && (byte_is b 133 || byte_is b 160).
Definition space3 (a b c : ascii) : bool :=
  (byte_is a 225 && byte_is b 154 && byte_is c 128)
  || (byte_is a 226 && byte_is b 128
      && (byte_in c 128 138 || byte_in c 168 169 || byte_is c 175))
  || (byte_is a 226 && byte_is b 129 && byte_is c 159)
  || (byte_is a 227 && byte_is b 128 && byte_is c 128).

(** Drops the white-space runes a string starts with.  [backwards] reads
    the bytes of a rune last byte first, for a string that was reversed. *)
Fixpoint trim_front (backwards : bool) (s : string) : string :=
  match s with
  | String a r1 =>
    if space1 a then trim_front backwards r1
    else match r1 with
    | String b r2 =>
      if (if backwards then space2 b a else space2 a b)
      then trim_front backwards r2
      else match r2 with
      | String c r3 =>
        if (if backwards then space3 c b a else space3 a b c)
        then trim_front backwards r3
        else s
      | EmptyString => s
      end
    | EmptyString => s
    end
  | EmptyString => s
  end.

(** [strings.TrimSpace]. *)
Definition strings_TrimSpace (s : string) : string :=
  String.rev (trim_front true (String.rev (trim_front false s))).

(** The string starts with a white-space rune, of one, two or three
    bytes. *)
Definition starts_with_space (s : string) : bool :=
  match s with
  | String a r1 =>
    space1 a
    || match r1 with
       | String b r2 =>
         space2 a b
         || match r2 with
            | String c _ => space3 a b c
            | EmptyString => false
            end
       | EmptyString => false
       end
  | EmptyString => false
  end.

(** The text before and after the first space of [s], if it has one. *)
Fixpoint cut_at_space (s : string) : option (string * string) :=
  match s with
  | EmptyString => None
  | String c r =>
    if byte_is c 32 then Some (EmptyString, r)
    else match cut_at_space r with
    | Some (before, rest) => Some (String c before, rest)
    | None => None
    end
  end.

(** [strings.SplitN(s, " ", 2)]: one string when [s] has no space, else the
    text before the first space and the text after it. *)
Definition strings_SplitN_space_2 (s : string) : list string :=
  match cut_at_space s with
  | Some (before, rest) => [before; rest]
  | None => [s]
  end.

(** [bufio.MaxScanTokenSize]: a Scanner with the default buffer gives up at
    a line it cannot hold. *)
Definition bufio_MaxScanTokenSize : N := 65536.

Definition dropCR (rev_line : string) : string :=
  match rev_line with
  | String c r => if byte_is c 13 then r else rev_line
  | EmptyString => rev_line
  end.

Definition fits_buffer (rev_line : string) : bool :=
  N.ltb (N.of_nat (String.length rev_line)) bufio_MaxScanTokenSize.

(** The lines [scanner.Scan()] / [scanner.Text()] yield with the default
    split function [bufio.ScanLines]: the text between newlines, one
    trailing carriage return dropped, and the rest of the text after the
    last newline if it is not empty.  [rev_cur] is the line read so far,
    last byte first.  The scan stops at a line of [bufio_MaxScanTokenSize]
    bytes or more; [addCustomPatterns] does not look at [scanner.Err()]. *)
Fixpoint scan_lines (rev_cur : string) (s : string) : list string :=
  match s with
  | EmptyString =>
    match rev_cur with
    | EmptyString => []
    | _ =>
      if fits_buffer rev_cur
      then [String.rev (dropCR rev_cur)] else []
    end
  | String c r =>
    if byte_is c 10 then
      if fits_buffer rev_cur
      then String.rev (dropCR rev_cur) :: scan_lines EmptyString r
      else []
    else scan_lines (String c rev_cur) r
  end.

Definition bufio_ScanLines (text : string) : list string :=
  scan_lines EmptyString text.

(** An order in which [for k, v := range values] may visit the map. *)
Definition range_order (values : gmap string string)
    (kvs : list (string * string)) : Prop :=
  kvs ≡ₚ map_to_list values.

(** [tail.SeekInfo] and the fields of [tail.Config] that [Start] sets. *)
Record SeekInfo : Type := { Offset : Z; Whence : Z }.
Record Config : Type := { ReOpen : bool; Follow : bool; Location : SeekInfo }.

(** ** The libraries the two packages call

    Their code is not part of the two files; an instance of [Libraries]
    fixes what each call returns.  [error] is Go's [error] interface (its
    non-nil values). *)
Class Libraries : Type := {
  error : Type;
  (** [err.Error()] and [fmt.Errorf(format)]. *)
  error_Error : error → string;
  fmt_Errorf : string → error;
  (** vjeantet/grok: a grammar under construction;
      [grok.NewWithConfig(&grok.Config{NamedCapturesOnly: true})];
      [g.AddPatternsFromPath(path)] and [g.AddPatternsFromMap(m)], which
      give the grammar afterwards and the error; [g.Parse(pattern, text)]. *)
  Grok : Type;
  grok_NewWithConfig : error + Grok;
  grok_AddPatternsFromPath : Grok → string → Grok * option error;
  grok_AddPatternsFromMap : Grok → gmap string string → Grok * option error;
  grok_Parse : Grok → string → string → error + gmap string string;
  (** gobwas/glob: a compiled matcher and its [Match]; telegraf's
      [internal.CompileFilter]. *)
  Glob : Type;
  glob_Match : Glob → string → bool;
  internal_CompileFilter : list string → error + Glob;
  (** [telegraf.Metric], [time.Time] and
      [telegraf.NewMetric(name, tags, fields, t)]. *)
  Metric : Type;
  time_Time : Type;
  telegraf_NewMetric :
    string → gmap string string → gmap string FieldValue → time_Time →
    error + Metric;
  (** telegraf's [globpath.Compile(path)], and the files [g.Match()] finds,
      in the order the [range] over them visits them. *)
  GlobPath : Type;
  globpath_Compile : string → error + GlobPath;
  globpath_Match : GlobPath → list string;
  (** hpcloud/tail: an open session, and [tail.TailFile(file, config)]. *)
  Tail : Type;
  tail_TailFile : string → Config → error + Tail;
  (** [t.Stop()]. *)
  tail_Stop : Tail → option error;
  (** [telegraf.Accumulator]. *)
  Accumulator : Type
}.

(** What the receiver reads of the values the libraries hand it:
    [tailer.Filename], and [m.Name()], [m.Fields()], [m.Tags()] and
    [m.Time()] of a metric. *)
Class Readers `{Libraries} : Type := {
  tail_Filename : Tail → string;
  Metric_Name : Metric → string;
  Metric_Fields : Metric → gmap string FieldValue;
  Metric_Tags : Metric → gmap string string;
  Metric_Time : Metric → time_Time
}.

(** ** Package grok *)
Module grok.

Section Parser.

Context `{Libraries}.

Record Parser : Type := {
  Pattern : string;
  CustomPatterns : string;
  CustomPatternFile : string;
  TagKeys : list string;
  tagKeys : option Glob;
  FieldKeysStr : list string;
  fieldKeysStr : option Glob;
  FieldKeysInt : list string;
  fieldKeysInt : option Glob;
  FieldKeysFloat : list string;
  fieldKeysFloat : option Glob;
  g : option Grok
}.

Definition set_g (p : Parser) (x : option Grok) : Parser :=
  {| Pattern := Pattern p; CustomPatterns := CustomPatterns p;
     CustomPatternFile := CustomPatternFile p;
     TagKeys := TagKeys p; tagKeys := tagKeys p;
     FieldKeysStr := FieldKeysStr p; fieldKeysStr := fieldKeysStr p;
     FieldKeysInt := FieldKeysInt p; fieldKeysInt := fieldKeysInt p;
     FieldKeysFloat := FieldKeysFloat p; fieldKeysFloat := fieldKeysFloat p;
     g := x |}.

Definition set_tagKeys (p : Parser) (x : option Glob) : Parser :=
  {| Pattern := Pattern p; CustomPatterns := CustomPatterns p;
     CustomPatternFile := CustomPatternFile p;
     TagKeys := TagKeys p; tagKeys := x;
     FieldKeysStr := FieldKeysStr p; fieldKeysStr := fieldKeysStr p;
     FieldKeysInt := FieldKeysInt p; fieldKeysInt := fieldKeysInt p;
     FieldKeysFloat := FieldKeysFloat p; fieldKeysFloat := fieldKeysFloat p;
     g := g p |}.

Definition set_fieldKeysStr (p : Parser) (x : option Glob) : Parser :=
  {| Pattern := Pattern p; CustomPatterns := CustomPatterns p;
     CustomPatternFile := CustomPatternFile p;
     TagKeys := TagKeys p; tagKeys := tagKeys p;
     FieldKeysStr := FieldKeysStr p; fieldKeysStr := x;
     FieldKeysInt := FieldKeysInt p; fieldKeysInt := fieldKeysInt p;
     FieldKeysFloat := FieldKeysFloat p; fieldKeysFloat := fieldKeysFloat p;
     g := g p |}.

Definition set_fieldKeysInt (p : Parser) (x : option Glob) : Parser :=
  {| Pattern := Pattern p; CustomPatterns := CustomPatterns p;
     CustomPatternFile := CustomPatternFile p;
     TagKeys := TagKeys p; tagKeys := tagKeys p;
     FieldKeysStr := FieldKeysStr p; fieldKeysStr := fieldKeysStr p;
     FieldKeysInt := FieldKeysInt p; fieldKeysInt := x;
     FieldKeysFloat := FieldKeysFloat p; fieldKeysFloat := fieldKeysFloat p;
     g := g p |}.

Definition set_fieldKeysFloat (p : Parser) (x : option Glob) : Parser :=
  {| Pattern := Pattern p; CustomPatterns := CustomPatterns p;
     CustomPatternFile := CustomPatternFile p;
     TagKeys := TagKeys p; tagKeys := tagKeys p;
     FieldKeysStr := FieldKeysStr p; fieldKeysStr := fieldKeysStr p;
     FieldKeysInt := FieldKeysInt p; fieldKeysInt := fieldKeysInt p;
     FieldKeysFloat := FieldKeysFloat p; fieldKeysFloat := x;
     g := g p |}.

(** *** ParseLine *)

(** The two maps [ParseLine] fills: [fields] and [tags]. *)
Record Maps : Type := {
  fields : gmap string FieldValue;
  tags : gmap string string
}.

Definition set_field (k v : string) (m : Maps) : Maps :=
  {| fields := <[k := VString v]> (fields m); tags := tags m |}.

Definition set_tag (k v : string) (m : Maps) : Maps :=
  {| fields := fields m; tags := <[k := v]> (tags m) |}.

(** One turn of [for k, v := range values] (grok.go, lines 87-121).  Every
    [continue] of the source is a branch that returns the maps as they
    are. *)
Definition range_body (p : Parser) (m : Maps) (kv : string * string) : Maps :=
  let '(k, v) := kv in
  if bool_decide (k = "" ∨ v = "") then m
  else if (match tagKeys p with
           | Some tk => glob_Match tk k
           | None => false
           end)
  then set_tag k v m
  else match fieldKeysInt p with
  | Some ki => if glob_Match ki k then set_field k v m else m
  | None =>
  match fieldKeysFloat p with
  | Some kf => if glob_Match kf k then set_field k v m else m
  | None =>
  match fieldKeysStr p with
  | Some ks => if glob_Match ks k then set_field k v m else m
  | None => set_field k v m
  end end end.

(** Where a turn of the loop leaves its entry: the branch [range_body]
    takes, read off the same tests in the same order. *)
Inductive bucket : Type :=
| InTags
| InFields
| Dropped.

Definition route (p : Parser) (k v : string) : bucket :=
  if bool_decide (k = "" ∨ v = "") then Dropped
  else if (match tagKeys p with
           | Some tk => glob_Match tk k
           | None => false
           end)
  then InTags
  else match fieldKeysInt p with
  | Some ki => if glob_Match ki k then InFields else Dropped
  | None =>
  match fieldKeysFloat p with
  | Some kf => if glob_Match kf k then InFields else Dropped
  | None =>
  match fieldKeysStr p with
  | Some ks => if glob_Match ks k then InFields else Dropped
  | None => InFields
  end end end.

(** The whole loop, over the entries in the order they are visited. *)
Definition range_values (p : Parser) (kvs : list (string * string)) : Maps :=
  foldl (range_body p) {| fields := ∅; tags := ∅ |} kvs.

(** [ParseLine]: [order] is the order in which this call's [range] visits
    [values], [now] what [time.Now()] returns.  Calling [Parse] through a
    nil [p.g] dereferences it. *)
Definition ParseLine (p : Parser) (line : string)
    (order : gmap string string → list (string * string)) (now : time_Time)
    : run (error + Metric) :=
  match g p with
  | None => Panics nil_dereference
  | Some gr =>
    match grok_Parse gr (Pattern p) line with
    | inl err => Returns (inl err)
    | inr values =>
      let m := range_values p (order values) in
      Returns (telegraf_NewMetric "grok" (tags m) (fields m) now)
    end
  end.

(** *** addCustomPatterns *)

(** The body of the [for scanner.Scan()] loop, over the lines still to be
    read: a line that is neither blank nor a comment is split at its first
    space, and [filePatterns[names[0]] = names[1]] indexes the two parts.
    Indexing a slice past its length panics. *)
Fixpoint scan_patterns (lines : list string)
    (filePatterns : gmap string string) : run (gmap string string) :=
  match lines with
  | [] => Returns filePatterns
  | text :: rest =>
    let l := strings_TrimSpace text in
    match l with
    | String c _ =>
      if byte_is c 35 then scan_patterns rest filePatterns
      else
        let names := strings_SplitN_space_2 l in
        match names !! 0%nat, names !! 1%nat with
        | Some name, Some fragment =>
          scan_patterns rest (<[name := fragment]> filePatterns)
        | _, _ => Panics index_out_of_range
        end
    | EmptyString => scan_patterns rest filePatterns
    end
  end.

(** A step of [Compile]: the parser afterwards, and the error returned (or
    the panic). *)
Definition step : Type := Parser → Parser * run (option error).

(** [if err = s1; err != nil { return err }] followed by [s2]. *)
Definition and_then (s1 s2 : step) : step := λ p,
  match s1 p with
  | (p', Returns None) => s2 p'
  | stopped => stopped
  end.

Definition addCustomPatterns : step := λ p,
  match scan_patterns (bufio_ScanLines (CustomPatterns p)) ∅ with
  | Panics msg => (p, Panics msg)
  | Returns filePatterns =>
    match g p with
    | None => (p, Panics nil_dereference)
    | Some gr =>
      let '(gr', err) := grok_AddPatternsFromMap gr filePatterns in
      (set_g p (Some gr'), Returns err)
    end
  end.

(** *** Compile *)

(** [p.g, err = grok.NewWithConfig(...)]. *)
Definition new_grok : step := λ p,
  match grok_NewWithConfig with
  | inl err => (set_g p None, Returns (Some err))
  | inr gr => (set_g p (Some gr), Returns None)
  end.

(** [if p.CustomPatternFile != "" { ... AddPatternsFromPath ... }]. *)
Definition add_pattern_file : step := λ p,
  if bool_decide (CustomPatternFile p ≠ "") then
    match g p with
    | None => (p, Panics nil_dereference)
    | Some gr =>
      let '(gr', err) := grok_AddPatternsFromPath gr (CustomPatternFile p) in
      (set_g p (Some gr'), Returns err)
    end
  else (p, Returns None).

(** [if p.CustomPatterns != "" { ... addCustomPatterns ... }]. *)
Definition add_custom_patterns : step := λ p,
  if bool_decide (CustomPatterns p ≠ "") then addCustomPatterns p
  else (p, Returns None).

(** [if len(keys) > 0 { if slot, err = internal.CompileFilter(keys); ... }]
    for one of the four key lists. *)
Definition compile_filter (keys : Parser → list string)
    (set_slot : Parser → option Glob → Parser) : step := λ p,
  if bool_decide (0 < length (keys p))%nat then
    match internal_CompileFilter (keys p) with
    | inl err => (set_slot p None, Returns (Some err))
    | inr gl => (set_slot p (Some gl), Returns None)
    end
  else (p, Returns None).

Definition Compile : step :=
  and_then new_grok
  (and_then add_pattern_file
  (and_then add_custom_patterns
  (and_then (compile_filter TagKeys set_tagKeys)
  (and_then (compile_filter FieldKeysStr set_fieldKeysStr)
  (and_then (compile_filter FieldKeysInt set_fieldKeysInt)
            (compile_filter FieldKeysFloat set_fieldKeysFloat)))))).

(** *** ParseLine, told by what it keeps

    Readings of the tests of the loop used to state what [ParseLine] hands
    to [telegraf.NewMetric]. *)

(** The tag-key matcher is set and matches the name. *)
Definition tag_match (p : Parser) (k : string) : bool :=
  match tagKeys p with
  | Some tk => glob_Match tk k
  | None => false
  end.

(** The field-key matcher the loop asks: the first that is set, in the
    order int, float, string. *)
Definition first_field_filter (p : Parser) : option Glob :=
  match fieldKeysInt p with
  | Some ki => Some ki
  | None =>
    match fieldKeysFloat p with
    | Some kf => Some kf
    | None => fieldKeysStr p
    end
  end.

(** No field-key matcher is set, or the one the loop asks matches. *)
Definition field_match (p : Parser) (k : string) : bool :=
  match first_field_filter p with
  | Some f => glob_Match f k
  | None => true
  end.

(** The capture has a name and a value. *)
Definition named_value (kv : string * string) : bool :=
  negb (bool_decide (kv.1 = "" ∨ kv.2 = "")).

(** The captures that become tags, and those that become fields. *)
Definition kept_as_tag (p : Parser) (kv : string * string) : bool :=
  named_value kv && tag_match p kv.1.

Definition kept_as_field (p : Parser) (kv : string * string) : bool :=
  named_value kv && negb (tag_match p kv.1) && field_match p kv.1.

(** What [Compile] leaves in a matcher when it returns nil: the matcher as
    it was when the key list is empty, the compiled key list otherwise. *)
Definition slot_after (keys : list string) (before after : option Glob)
    : Prop :=
  match keys with
  | [] => after = before
  | _ => ∃ gl, internal_CompileFilter keys = inr gl ∧ after = Some gl
  end.

(** *** addCustomPatterns, told line by line

    Readings of the loop of [addCustomPatterns] used to state what it
    records. *)

(** What the loop makes of a line: it passes over it, records a name with
    its fragment, or finds no fragment to index. *)
Inductive line_kind : Type :=
| Passed
| Defines (name fragment : string)
| NoFragment.

Definition read_line (text : string) : line_kind :=
  match strings_TrimSpace text with
  | EmptyString => Passed
  | String c _ as l =>
    if byte_is c 35 then Passed
    else match cut_at_space l with
    | Some (name, fragment) => Defines name fragment
    | None => NoFragment
    end
  end.

(** The fragments the lines give a name, in the order of the lines. *)
Definition fragments_of (name : string) (lines : list string) : list string :=
  omap (λ text, match read_line text with
                | Defines n fragment =>
                  if decide (n = name) then Some fragment else None
                | _ => None
                end) lines.

End Parser.

End grok.

(** ** Package logparser *)
Module logparser.

Section Plugin.

Context `{Libraries}.

(** A value of the interface [LogParser] held in [l.parsers]: the pointer
    stored in a field of the plugin.  [*grok.Parser] is the one type of the
    struct's fields that has [ParseLine] and [Compile], so the one pointer
    there can be is the field [GrokParser]; the parser it points to stays
    in that field, and a call through the reference updates it there. *)
Inductive LogParser : Type :=
| GrokParserPtr.

(** The wait group's counter is [wg]; the mutex brackets [Start] and [Stop]
    and is left out: one call runs at a time. *)
Record LogParserPlugin : Type := {
  Files : list string;
  FromBeginning : bool;
  tailers : list Tail;
  wg : Z;
  acc : option Accumulator;
  parsers : list LogParser;
  GrokParser : option grok.Parser
}.

(** The fields of the struct, as [reflect] numbers them. *)
Inductive struct_field : Type :=
| F_Files | F_FromBeginning | F_tailers | F_wg | F_acc | F_Mutex
| F_parsers | F_GrokParser.

Definition fields_of_LogParserPlugin : list struct_field :=
  [F_Files; F_FromBeginning; F_tailers; F_wg; F_acc; F_Mutex;
   F_parsers; F_GrokParser].

(** [f.CanInterface()]: the field is exported. *)
Definition CanInterface (f : struct_field) : bool :=
  match f with
  | F_Files | F_FromBeginning | F_Mutex | F_GrokParser => true
  | F_tailers | F_wg | F_acc | F_parsers => false
  end.

(** [f.Interface().(LogParser)]: the assertion holds for a field of type
    [*grok.Parser]. *)
Definition as_LogParser (f : struct_field) : option LogParser :=
  match f with
  | F_GrokParser => Some GrokParserPtr
  | _ => None
  end.

(** [reflect.ValueOf(lpPlugin).IsNil()]. *)
Definition IsNil (l : LogParserPlugin) (lp : LogParser) : bool :=
  match lp with
  | GrokParserPtr => bool_decide (GrokParser l = None)
  end.

(** What the plugin's effects leave behind, in order. *)
Inductive event : Type :=
| LogGlobFailed (filepath : string) (err : error)
| CallTailFile (file : string) (config : Config)
| GoReceiver (tailer : Tail)
| CallStop (tailer : Tail)
| LogStopFailed (tailer : Tail)
| CallCleanup (tailer : Tail)
| WgWait.

Definition set_run (l : LogParserPlugin) (a : option Accumulator)
    (ps : list LogParser) : LogParserPlugin :=
  {| Files := Files l; FromBeginning := FromBeginning l;
     tailers := tailers l; wg := wg l; acc := a; parsers := ps;
     GrokParser := GrokParser l |}.

Definition set_GrokParser (l : LogParserPlugin) (p : option grok.Parser)
    : LogParserPlugin :=
  {| Files := Files l; FromBeginning := FromBeginning l;
     tailers := tailers l; wg := wg l; acc := acc l; parsers := parsers l;
     GrokParser := p |}.

(** [l.wg.Add(1)] and [l.tailers = append(l.tailers, tailer)]. *)
Definition add_tailer (l : LogParserPlugin) (tailer : Tail)
    : LogParserPlugin :=
  {| Files := Files l; FromBeginning := FromBeginning l;
     tailers := tailers l ++ [tailer]; wg := (wg l + 1)%Z; acc := acc l;
     parsers := parsers l; GrokParser := GrokParser l |}.

(** The loop over the struct's fields (logparser.go, lines 91-104). *)
Definition find_parsers (l : LogParserPlugin) : list LogParser :=
  foldl (λ found f,
           if negb (CanInterface f) then found
           else match as_LogParser f with
           | Some lp => if IsNil l lp then found else found ++ [lp]
           | None => found
           end)
        [] fields_of_LogParserPlugin.

(** [parser.Compile()] through the interface. *)
Definition LogParser_Compile (lp : LogParser) (l : LogParserPlugin)
    : LogParserPlugin * run (option error) :=
  match lp with
  | GrokParserPtr =>
    match GrokParser l with
    | None => (l, Panics nil_dereference)
    | Some p =>
      let '(p', r) := grok.Compile p in (set_GrokParser l (Some p'), r)
    end
  end.

(** [for _, parser := range l.parsers { if err := parser.Compile(); ... }]. *)
Fixpoint compile_parsers (lps : list LogParser) (l : LogParserPlugin)
    : LogParserPlugin * run (option error) :=
  match lps with
  | [] => (l, Returns None)
  | lp :: rest =>
    match LogParser_Compile lp l with
    | (l', Returns None) => compile_parsers rest l'
    | stopped => stopped
    end
  end.

(** The state of the loop over [l.Files]. *)
Record Tailing : Type := {
  plugin : LogParserPlugin;
  errS : string;
  trace : list event
}.

Definition tail_config (seek : SeekInfo) : Config :=
  {| ReOpen := true; Follow := true; Location := seek |}.

(** [for file, _ := range g.Match() { ... }] over the files in the order
    they are visited (lines 130-145). *)
Fixpoint tail_files (seek : SeekInfo) (files : list string) (st : Tailing)
    : Tailing :=
  match files with
  | [] => st
  | file :: rest =>
    let called := trace st ++ [CallTailFile file (tail_config seek)] in
    match tail_TailFile file (tail_config seek) with
    | inl err =>
      tail_files seek rest
        {| plugin := plugin st;
           errS := errS st +:+ error_Error err +:+ " ";
           trace := called |}
    | inr tailer =>
      tail_files seek rest
        {| plugin := add_tailer (plugin st) tailer;
           errS := errS st;
           trace := called ++ [GoReceiver tailer] |}
    end
  end.

(** [for _, filepath := range l.Files { ... }] (lines 125-146).  When
    [globpath.Compile] fails the loop logs the error and goes on to
    [g.Match()] with the nil [g] it was given, which dereferences it.
    Every range over the files of a pattern visits them here in the one
    order [globpath_Match] lists them in; [glob_files_in] below gives each
    range an order of its own. *)
Fixpoint glob_files (seek : SeekInfo) (filepaths : list string) (st : Tailing)
    : Tailing * run unit :=
  match filepaths with
  | [] => (st, Returns ())
  | filepath :: rest =>
    match globpath_Compile filepath with
    | inl err =>
      ({| plugin := plugin st; errS := errS st;
          trace := trace st ++ [LogGlobFailed filepath err] |},
       Panics nil_dereference)
    | inr gp => glob_files seek rest (tail_files seek (globpath_Match gp) st)
    end
  end.

Definition no_parsers_defined : string :=
  "ERROR: logparser input plugin: no parsers defined.".

(** [var seek tail.SeekInfo; if !l.FromBeginning { ... }]. *)
Definition start_seek (l : LogParserPlugin) : SeekInfo :=
  if negb (FromBeginning l) then {| Offset := 0; Whence := 2 |}
  else {| Offset := 0; Whence := 0 |}.

(** [Start]: the plugin afterwards, what it did, and what it returned. *)
Definition Start (l : LogParserPlugin) (a : Accumulator)
    : LogParserPlugin * list event * run (option error) :=
  let l1 := set_run l (Some a) [] in
  let l2 := set_run l1 (Some a) (find_parsers l1) in
  if bool_decide (length (parsers l2) = 0%nat) then
    (l2, [], Returns (Some (fmt_Errorf no_parsers_defined)))
  else
    match compile_parsers (parsers l2) l2 with
    | (l3, Returns None) =>
      let '(st, r) :=
        glob_files (start_seek l3) (Files l3)
          {| plugin := l3; errS := ""; trace := [] |} in
      match r with
      | Panics msg => (plugin st, trace st, Panics msg)
      | Returns _ =>
        if bool_decide (errS st ≠ "")
        then (plugin st, trace st, Returns (Some (fmt_Errorf (errS st))))
        else (plugin st, trace st, Returns None)
      end
    | (l3, stopped) => (l3, [], stopped)
    end.

(** [Stop]: every tailer is stopped and cleaned up, then the wait group is
    waited for. *)
Definition Stop (l : LogParserPlugin) : list event :=
  flat_map (λ t, match tail_Stop t with
                 | Some _ => [CallStop t; LogStopFailed t; CallCleanup t]
                 | None => [CallStop t; CallCleanup t]
                 end) (tailers l)
  ++ [WgWait].

(** *** The files loop, told by what it meets

    Readings of the loop used to state what [Start] does: the files the
    patterns resolve to, and for a list of files the sessions that open,
    the errors of those that do not, and the calls made. *)

(** The files of the patterns that compile, pattern after pattern. *)
Definition resolve (filepaths : list string) : list string :=
  flat_map (λ filepath, match globpath_Compile filepath with
                        | inr gp => globpath_Match gp
                        | inl _ => []
                        end) filepaths.

Definition opened (config : Config) (files : list string) : list Tail :=
  omap (λ file, match tail_TailFile file config with
                | inr tailer => Some tailer
                | inl _ => None
                end) files.

Definition failures (config : Config) (files : list string) : list error :=
  omap (λ file, match tail_TailFile file config with
                | inr _ => None
                | inl err => Some err
                end) files.

(** The error messages one after the other, a space after each. *)
Definition join_errors (errs : list error) : string :=
  foldr (λ err s, error_Error err +:+ " " +:+ s) "" errs.

(** One [tail.TailFile] call per file, and a receiver goroutine for each
    session that opened. *)
Definition calls (config : Config) (files : list string) : list event :=
  flat_map (λ file, CallTailFile file config ::
                    match tail_TailFile file config with
                    | inr tailer => [GoReceiver tailer]
                    | inl _ => []
                    end) files.

(** *** Start, with the order of each range over the files

    [for file, _ := range g.Match()] ranges over a map, and each such range
    visits the files in an order of its own.  [visit n files] is the order
    in which the range for the [n]-th pattern of this call visits the
    files [files] that [g.Match()] found. *)

Fixpoint glob_files_in (seek : SeekInfo)
    (visit : nat → list string → list string) (n : nat)
    (filepaths : list string) (st : Tailing) : Tailing * run unit :=
  match filepaths with
  | [] => (st, Returns ())
  | filepath :: rest =>
    match globpath_Compile filepath with
    | inl err =>
      ({| plugin := plugin st; errS := errS st;
          trace := trace st ++ [LogGlobFailed filepath err] |},
       Panics nil_dereference)
    | inr gp =>
      glob_files_in seek visit (S n) rest
        (tail_files seek (visit n (globpath_Match gp)) st)
    end
  end.

(** [Start], the ranges over the files visiting them as [visit] says. *)
Definition Start_in (visit : nat → list string → list string)
    (l : LogParserPlugin) (a : Accumulator)
    : LogParserPlugin * list event * run (option error) :=
  let l1 := set_run l (Some a) [] in
  let l2 := set_run l1 (Some a) (find_parsers l1) in
  if bool_decide (length (parsers l2) = 0%nat) then
    (l2, [], Returns (Some (fmt_Errorf no_parsers_defined)))
  else
    match compile_parsers (parsers l2) l2 with
    | (l3, Returns None) =>
      let '(st, r) :=
        glob_files_in (start_seek l3) visit 0 (Files l3)
          {| plugin := l3; errS := ""; trace := [] |} in
      match r with
      | Panics msg => (plugin st, trace st, Panics msg)
      | Returns _ =>
        if bool_decide (errS st ≠ "")
        then (plugin st, trace st, Returns (Some (fmt_Errorf (errS st))))
        else (plugin st, trace st, Returns None)
      end
    | (l3, stopped) => (l3, [], stopped)
    end.


(** *** NewLogParserPlugin and Gather *)

Definition NewLogParserPlugin : LogParserPlugin :=
  {| Files := []; FromBeginning := false; tailers := []; wg := 0;
     acc := None; parsers := []; GrokParser := None |}.

(** [Gather] does nothing and returns nil. *)
Definition Gather (l : LogParserPlugin) (a : Accumulator)
    : LogParserPlugin * option error :=
  (l, None).

(** *** receiver *)

Context `{!Readers}.

(** A [tail.Line] as the receiver reads it: its text and its error. *)
Record Line : Type := { Text : string; Err : option error }.

(** What a receiver leaves behind, in order: the two log lines, the calls
    of [l.acc.AddFields] and the deferred [l.wg.Done()]. *)
Inductive delivery : Type :=
| LogTailError (filename : string) (logged : option error)
| CallAddFields (name : string) (fields : gmap string FieldValue)
    (tags : gmap string string) (t : time_Time)
| LogMalformed (filename text : string) (logged : error)
| WgDone.

(** [parser.ParseLine(line.Text)] through the interface. *)
Definition LogParser_ParseLine (lp : LogParser) (l : LogParserPlugin)
    (text : string) (order : gmap string string → list (string * string))
    (now : time_Time) : run (error + Metric) :=
  match lp with
  | GrokParserPtr =>
    match GrokParser l with
    | None => Panics nil_dereference
    | Some p => grok.ParseLine p text order now
    end
  end.

(** The receiver's variable [err], the number of [ParseLine] calls made so
    far, and what was left behind so far. *)
Record Receiving : Type := {
  err : option error;
  calls_made : nat;
  sent : list delivery
}.

(** [for _, parser := range l.parsers { ... }] for one line (lines
    168-176).  The call number [n] of a [ParseLine] call fixes the order
    [orders n] of its range over the captures and the time [clock n] it
    reads.  [AddFields] is called through [l.acc]. *)
Fixpoint offer_line (l : LogParserPlugin) (filename text : string)
    (orders : nat → gmap string string → list (string * string))
    (clock : nat → time_Time) (lps : list LogParser) (st : Receiving)
    : Receiving * run unit :=
  match lps with
  | [] => (st, Returns ())
  | lp :: rest =>
    let n := calls_made st in
    match LogParser_ParseLine lp l text (orders n) (clock n) with
    | Panics msg => (st, Panics msg)
    | Returns (inr m) =>
      match acc l with
      | None =>
        ({| err := None; calls_made := S n; sent := sent st |},
         Panics nil_dereference)
      | Some _ =>
        offer_line l filename text orders clock rest
          {| err := None; calls_made := S n;
             sent := sent st ++ [CallAddFields (Metric_Name m)
                                   (Metric_Fields m) (Metric_Tags m)
                                   (Metric_Time m)] |}
      end
    | Returns (inl e) =>
      offer_line l filename text orders clock rest
        {| err := Some e; calls_made := S n;
           sent := sent st ++ [LogMalformed filename text e] |}
    end
  end.

(** [for line = range tailer.Lines { ... }] over the lines the channel
    gives before it is closed (lines 162-177).  The log line written for a
    line with an error prints the variable [err], not [line.Err]. *)
Fixpoint receive_lines (l : LogParserPlugin) (filename : string)
    (orders : nat → gmap string string → list (string * string))
    (clock : nat → time_Time) (lines : list Line) (st : Receiving)
    : Receiving * run unit :=
  match lines with
  | [] => (st, Returns ())
  | line :: rest =>
    match Err line with
    | Some _ =>
      receive_lines l filename orders clock rest
        {| err := err st; calls_made := calls_made st;
           sent := sent st ++ [LogTailError filename (err st)] |}
    | None =>
      match offer_line l filename (Text line) orders clock (parsers l) st with
      | (st', Returns _) => receive_lines l filename orders clock rest st'
      | stopped => stopped
      end
    end
  end.

(** [receiver]: what it left behind, the deferred [l.wg.Done()] last, and
    whether it returned or panicked. *)
Definition receiver (l : LogParserPlugin) (tailer : Tail)
    (orders : nat → gmap string string → list (string * string))
    (clock : nat → time_Time) (lines : list Line)
    : list delivery * run unit :=
  let '(st, r) :=
    receive_lines l (tail_Filename tailer) orders clock lines
      {| err := None; calls_made := 0; sent := [] |} in
  (sent st ++ [WgDone], r).

(** *** Readings of the traces *)

(** The sessions whose receiver a trace starts. *)
Definition spawned (tr : list event) : list Tail :=
  omap (λ e, match e with GoReceiver t => Some t | _ => None end) tr.

(** The configurations of the [tail.TailFile] calls of a trace. *)
Definition configs (tr : list event) : list Config :=
  omap (λ e, match e with CallTailFile _ c => Some c | _ => None end) tr.

(** The calls on sessions of a trace, the log lines left out. *)
Definition is_session_call (e : event) : bool :=
  match e with
  | CallStop _ | CallCleanup _ => true
  | _ => false
  end.

Definition session_calls (tr : list event) : list event :=
  filter (λ e, is_session_call e = true) tr.

(** The line came without an error. *)
Definition read_ok (line : Line) : bool :=
  match Err line with
  | None => true
  | Some _ => false
  end.

(** Two lines the receiver cannot tell apart: both came with an error, or
    both came without one and with the same text. *)
Definition same_reading (line1 line2 : Line) : Prop :=
  match Err line1, Err line2 with
  | None, None => Text line1 = Text line2
  | Some _, Some _ => True
  | _, _ => False
  end.

(** The delivery is the answer of a parser to the text of a line: the call
    of [AddFields] with the metric a [ParseLine] call on the text returned,
    or the log line of the error it returned. *)
Definition answer_of (l : LogParserPlugin) (filename text : string)
    (orders : nat → gmap string string → list (string * string))
    (clock : nat → time_Time) (lp : LogParser) (d : delivery) : Prop :=
  ∃ n, match LogParser_ParseLine lp l text (orders n) (clock n) with
       | Returns (inr m) =>
         d = CallAddFields (Metric_Name m) (Metric_Fields m) (Metric_Tags m)
               (Metric_Time m)
       | Returns (inl e) => d = LogMalformed filename text e
       | Panics _ => False
       end.

(** What a receiver leaves for one line: the one log line of a failed
    read, or the answers of the parsers of [l.parsers], one each and in
    their order. *)
Definition left_for (l : LogParserPlugin) (filename : string)
    (orders : nat → gmap string string → list (string * string))
    (clock : nat → time_Time) (line : Line) (ds : list delivery) : Prop :=
  match Err line with
  | Some _ => ∃ logged, ds = [LogTailError filename logged]
  | None =>
    Forall2 (answer_of l filename (Text line) orders clock) (parsers l) ds
  end.

End Plugin.

End logparser.

(** ** A small world to run the two packages in

    Stand-ins for the libraries, simple enough to compute with: they fix
    the inputs at which the theorems below are exercised. *)
Module testbed.

(** The text before and after the first byte [c] of [s]. *)
Fixpoint cut_at (c : ascii) (s : string) : option (string * string) :=
  match s with
  | EmptyString => None
  | String d r =>
    if Ascii.eqb c d then Some (EmptyString, r)
    else match cut_at c r with
    | Some (before, rest) => Some (String d before, rest)
    | None => None
    end
  end.

(** A grammar of [key=value] words: a line matches when every word of it
    has an equals sign, and its captures are the pairs. *)
Definition parse_words (line : string) : string + gmap string string :=
  match mapM (cut_at "=") (String.words line) with
  | Some kvs => inr (list_to_map kvs)
  | None => inl "no match"
  end.

(** Modelled from the spec: gobwas/glob is not in the sources; a glob
    filter is a wildcard-based key-matching predicate.  [*] stands for any
    bytes, [?] for one byte. *)
Fixpoint wildcard (pat s : string) : bool :=
  match pat with
  | EmptyString => bool_decide (s = "")
  | String c pat' =>
    if Ascii.eqb c "*" then
      (fix any (t : string) : bool :=
         wildcard pat' t
         || match t with
            | EmptyString => false
            | String _ t' => any t'
            end) s
    else match s with
    | EmptyString => false
    | String d s' => (Ascii.eqb c "?" || Ascii.eqb c d) && wildcard pat' s'
    end
  end.

Fixpoint has_byte (c : ascii) (s : string) : bool :=
  match s with
  | EmptyString => false
  | String d r => Ascii.eqb c d || has_byte c r
  end.

(** A pattern with a bracket is refused: the stand-in for a glob that does
    not compile. *)
Definition well_formed (pat : string) : bool := negb (has_byte "[" pat).

(** Modelled from the spec: [internal.CompileFilter] is not in the sources;
    each non-empty glob list is compiled to one matcher, and compiling
    fails on invalid glob syntax. *)
Definition compile_filter (pats : list string) : string + list string :=
  if forallb well_formed pats then inr pats else inl "unexpected end of input".

(** Modelled from the spec: [telegraf.Metric] is not in the sources; a
    measurement is its name, tag mapping, field mapping and timestamp. *)
Record metric : Type := {
  name : string;
  tags : gmap string string;
  fields : gmap string FieldValue;
  time : Z
}.

(** The files of the machine, and whether each can be opened. *)
Definition disk : list (string * bool) :=
  [("/var/log/a.log", true); ("/var/log/b.log", false);
   ("/var/log/c.log", true); ("/var/log/d.log", false)].

Definition open_file (file : string) : string + string :=
  match list_find (λ entry, entry.1 = file) disk with
  | Some (_, (_, true)) => inr file
  | Some (_, (_, false)) => inl ("open " +:+ file +:+ ": permission denied")
  | None => inl ("open " +:+ file +:+ ": no such file or directory")
  end.

#[export] Instance libraries : Libraries := {|
  error := string;
  error_Error := id;
  fmt_Errorf := id;
  Grok := gmap string string;
  grok_NewWithConfig := inr ∅;
  grok_AddPatternsFromPath := λ gr path,
    (gr, Some ("open " +:+ path +:+ ": no such file or directory"));
  grok_AddPatternsFromMap := λ gr m, (m ∪ gr, None);
  grok_Parse := λ _ _ line, parse_words line;
  Glob := list string;
  glob_Match := λ pats k, existsb (λ pat, wildcard pat k) pats;
  internal_CompileFilter := compile_filter;
  Metric := metric;
  time_Time := Z;
  telegraf_NewMetric := λ n t f now,
    inr {| name := n; tags := t; fields := f; time := now |};
  GlobPath := string;
  globpath_Compile := λ path,
    if well_formed path then inr path else inl "unexpected end of input";
  globpath_Match := λ pat, filter (λ file, wildcard pat file = true) disk.*1;
  Tail := string;
  tail_TailFile := λ file _, open_file file;
  tail_Stop := λ _, None;
  Accumulator := unit
|}.

(** The same world with a grammar that keeps silent: [g.Parse] answers a
    line that is no [key=value] line with no capture and no error. *)
Definition silent : Libraries := {|
  error := string;
  error_Error := id;
  fmt_Errorf := id;
  Grok := gmap string string;
  grok_NewWithConfig := inr ∅;
  grok_AddPatternsFromPath := λ gr path,
    (gr, Some ("open " +:+ path +:+ ": no such file or directory"));
  grok_AddPatternsFromMap := λ gr m, (m ∪ gr, None);
  grok_Parse := λ _ _ line,
    match parse_words line with
    | inl _ => inr ∅
    | inr values => inr values
    end;
  Glob := list string;
  glob_Match := λ pats k, existsb (λ pat, wildcard pat k) pats;
  internal_CompileFilter := compile_filter;
  Metric := metric;
  time_Time := Z;
  telegraf_NewMetric := λ n t f now,
    inr {| name := n; tags := t; fields := f; time := now |};
  GlobPath := string;
  globpath_Compile := λ path,
    if well_formed path then inr path else inl "unexpected end of input";
  globpath_Match := λ pat, filter (λ file, wildcard pat file = true) disk.*1;
  Tail := string;
  tail_TailFile := λ file _, open_file file;
  tail_Stop := λ _, None;
  Accumulator := unit
|}.

(** A compiled parser of that world, with no filter. *)
Definition silent_parser : @grok.Parser silent :=
  @grok.Build_Parser silent "%{PAIRS}" "" "" [] None [] None [] None [] None
    (Some (∅ : gmap string string)).

(** A parser as the configuration leaves it: the key lists are set, the
    compiled matchers and the grammar are not. *)
Definition configured (pattern custom : string)
    (tag_keys str_keys int_keys float_keys : list string) : grok.Parser :=
  {| grok.Pattern := pattern; grok.CustomPatterns := custom;
     grok.CustomPatternFile := "";
     grok.TagKeys := tag_keys; grok.tagKeys := None;
     grok.FieldKeysStr := str_keys; grok.fieldKeysStr := None;
     grok.FieldKeysInt := int_keys; grok.fieldKeysInt := None;
     grok.FieldKeysFloat := float_keys; grok.fieldKeysFloat := None;
     grok.g := None |}.

(** The parser [Compile] leaves behind. *)
Definition compiled (p : grok.Parser) : grok.Parser := (grok.Compile p).1.

(** A plugin as the configuration leaves it. *)
Definition plugin_of (files : list string) (p : option grok.Parser)
    : logparser.LogParserPlugin :=
  {| logparser.Files := files; logparser.FromBeginning := false;
     logparser.tailers := []; logparser.wg := 0; logparser.acc := None;
     logparser.parsers := []; logparser.GrokParser := p |}.

(** A parser for [key=value] lines whose tag-key filter is [host]. *)
Definition host_tagged : grok.Parser :=
  compiled (configured "%{PAIRS}" "" ["host"] ["*"] [] []).

(** A parser with an int-field filter and a float-field filter. *)
Definition response_and_bytes : grok.Parser :=
  compiled (configured "%{PAIRS}" "" [] [] ["response"] ["bytes"]).

(** A parser with no filter at all. *)
Definition unfiltered : grok.Parser :=
  compiled (configured "%{PAIRS}" "" [] [] [] []).

Definition host_line : string := "host=web1 verb=GET".
Definition host_captures : gmap string string :=
  list_to_map [("host", "web1"); ("verb", "GET")].

Definition blank_line : string := "host= verb=GET =x".
Definition blank_captures : gmap string string :=
  list_to_map [("host", ""); ("verb", "GET"); ("", "x")].

(** A parser whose custom patterns have a line without a fragment. *)
Definition nameless : grok.Parser :=
  configured "%{PAIRS}" "FOO" [] [] [] [].

(** A parser whose tag-key filter does not compile. *)
Definition bad_filter : grok.Parser :=
  configured "%{PAIRS}" "" ["[host"] [] [] [].

(** Plugins: one that tails every log of the machine, one whose second
    pattern does not compile, one with no parser, one whose parser does
    not compile. *)
Definition all_logs : logparser.LogParserPlugin :=
  plugin_of ["/var/log/*.log"] (Some (configured "%{PAIRS}" "" [] [] [] [])).

Definition second_glob_bad : logparser.LogParserPlugin :=
  plugin_of ["/var/log/a.log"; "[x"]
            (Some (configured "%{PAIRS}" "" [] [] [] [])).

Definition no_parser : logparser.LogParserPlugin :=
  plugin_of ["/var/log/*.log"] None.

Definition parser_bad : logparser.LogParserPlugin :=
  plugin_of ["/var/log/*.log"] (Some bad_filter).

(** The readers of the small world. *)
#[export] Instance readers : Readers := {|
  tail_Filename := id;
  Metric_Name := name;
  Metric_Fields := fields;
  Metric_Tags := tags;
  Metric_Time := time
|}.

(** Custom patterns with a comment, a blank line and a name defined
    twice. *)
Definition redefined_patterns : string :=
  "  NGUSER [a-z]+
# user names

NGUSER %{NGUSERNAME} x ".

Definition redefining : grok.Parser :=
  grok.set_g (configured "%{PAIRS}" redefined_patterns [] [] [] [])
             (Some ∅).

(** A plugin whose parser has a custom-pattern line without a fragment. *)
Definition nameless_plugin : logparser.LogParserPlugin :=
  plugin_of ["/var/log/*.log"] (Some nameless).

(** The plugin [Start] leaves of [all_logs]. *)
Definition started : logparser.LogParserPlugin :=
  (logparser.Start all_logs ()).1.1.

(** Lines as a session gives them: two that were read, one of them no
    [key=value] line, and between them one that came with an error. *)
Definition read_lines : list logparser.Line :=
  [{| logparser.Text := "host=web1 verb=GET"; logparser.Err := None |};
   {| logparser.Text := ""; logparser.Err := Some "read /var/log/a.log" |};
   {| logparser.Text := "garbage"; logparser.Err := None |}].

(** The same lines, the failed read with another text and error. *)
Definition read_lines' : list logparser.Line :=
  [{| logparser.Text := "host=web1 verb=GET"; logparser.Err := None |};
   {| logparser.Text := "half a li"; logparser.Err := Some "EOF" |};
   {| logparser.Text := "garbage"; logparser.Err := None |}].

(** Two reads that failed. *)
Definition failed_reads : list logparser.Line :=
  [{| logparser.Text := ""; logparser.Err := Some "read /var/log/a.log" |};
   {| logparser.Text := ""; logparser.Err := Some "EOF" |}].

(** Every call ranges in the order of [map_to_list], at the time of its
    number. *)
Definition orders (n : nat) (values : gmap string string)
    : list (string * string) :=
  map_to_list values.

Definition clock (n : nat) : Z := Z.of_nat n.

End testbed.

(** * Properties *)

(** ** ParseLine: where the captures go *)
Section ParseLine_facts.

Context `{Libraries}.

Implicit Types (p : grok.Parser) (m : grok.Maps) (k v line : string).
Implicit Types (values : gmap string string) (kvs : list (string * string)).

(** [range_body] does what [route] says. *)
Lemma range_body_route p m k v :
  grok.range_body p m (k, v) =
  match grok.route p k v with
  | grok.InTags => grok.set_tag k v m
  | grok.InFields => grok.set_field k v m
  | grok.Dropped => m
  end.
Proof.
  unfold grok.range_body, grok.route.
  repeat (case_match; try reflexivity).
Qed.

Lemma range_body_tags_other p m k k' v' :
  k ≠ k' → grok.tags (grok.range_body p m (k', v')) !! k = grok.tags m !! k.
Proof.
  intros Hne. rewrite range_body_route.
  destruct (grok.route p k' v'); simpl; [|done..].
  by rewrite lookup_insert_ne.
Qed.

Lemma range_body_fields_other p m k k' v' :
  k ≠ k' →
  grok.fields (grok.range_body p m (k', v')) !! k = grok.fields m !! k.
Proof.
  intros Hne. rewrite range_body_route.
  destruct (grok.route p k' v'); simpl; [done| |done].
  by rewrite lookup_insert_ne.
Qed.

(** The tags after the loop, key by key, when no key is visited twice. *)
Lemma foldl_range_body_tags p kvs : ∀ m k,
  NoDup kvs.*1 →
  grok.tags (foldl (grok.range_body p) m kvs) !! k =
  match (list_to_map kvs : gmap string string) !! k with
  | Some v =>
    match grok.route p k v with
    | grok.InTags => Some v
    | _ => grok.tags m !! k
    end
  | None => grok.tags m !! k
  end.
Proof.
  induction kvs as [|[k' v'] kvs IH]; intros m k Hnd; [done|].
  rewrite fmap_cons in Hnd. apply NoDup_cons in Hnd as [Hk' Hnd].
  cbn [foldl]. rewrite list_to_map_cons, IH by done.
  destruct (decide (k = k')) as [->|Hne].
  - rewrite lookup_insert_eq.
    rewrite (not_elem_of_list_to_map_1 kvs k') by done.
    rewrite range_body_route. by destruct (grok.route p k' v'); simpl;
      rewrite ?lookup_insert_eq.
  - rewrite lookup_insert_ne by done.
    by rewrite !range_body_tags_other.
Qed.

(** The fields after the loop, key by key. *)
Lemma foldl_range_body_fields p kvs : ∀ m k,
  NoDup kvs.*1 →
  grok.fields (foldl (grok.range_body p) m kvs) !! k =
  match (list_to_map kvs : gmap string string) !! k with
  | Some v =>
    match grok.route p k v with
    | grok.InFields => Some (VString v)
    | _ => grok.fields m !! k
    end
  | None => grok.fields m !! k
  end.
Proof.
  induction kvs as [|[k' v'] kvs IH]; intros m k Hnd; [done|].
  rewrite fmap_cons in Hnd. apply NoDup_cons in Hnd as [Hk' Hnd].
  cbn [foldl]. rewrite list_to_map_cons, IH by done.
  destruct (decide (k = k')) as [->|Hne].
  - rewrite lookup_insert_eq.
    rewrite (not_elem_of_list_to_map_1 kvs k') by done.
    rewrite range_body_route. by destruct (grok.route p k' v'); simpl;
      rewrite ?lookup_insert_eq.
  - rewrite lookup_insert_ne by done.
    by rewrite !range_body_fields_other.
Qed.

(** An order of visit lists every entry of the map once. *)
Lemma range_order_list_to_map values kvs :
  range_order values kvs →
  NoDup kvs.*1 ∧ (list_to_map kvs : gmap string string) = values.
Proof.
  unfold range_order. intros Hp.
  assert (NoDup kvs.*1) as Hnd.
  { rewrite Hp. apply NoDup_fst_map_to_list. }
  split; [done|].
  rewrite <- (list_to_map_to_list values).
  by apply list_to_map_proper.
Qed.

(** What the loop of [ParseLine] leaves in [tags] and in [fields], whatever
    the order of the visit. *)
Lemma range_values_tags p values kvs k :
  range_order values kvs →
  grok.tags (grok.range_values p kvs) !! k =
  match values !! k with
  | Some v =>
    match grok.route p k v with grok.InTags => Some v | _ => None end
  | None => None
  end.
Proof.
  intros [Hnd Hmap]%range_order_list_to_map.
  unfold grok.range_values. rewrite foldl_range_body_tags by done.
  rewrite Hmap. simpl. rewrite lookup_empty.
  destruct (values !! k); [|done]. by destruct (grok.route _ _ _).
Qed.

Lemma range_values_fields p values kvs k :
  range_order values kvs →
  grok.fields (grok.range_values p kvs) !! k =
  match values !! k with
  | Some v =>
    match grok.route p k v with
    | grok.InFields => Some (VString v)
    | _ => None
    end
  | None => None
  end.
Proof.
  intros [Hnd Hmap]%range_order_list_to_map.
  unfold grok.range_values. rewrite foldl_range_body_fields by done.
  rewrite Hmap. simpl. rewrite lookup_empty.
  destruct (values !! k); [|done]. by destruct (grok.route _ _ _).
Qed.

(** The order of the visit does not show in the maps. *)
Lemma range_values_order p values kvs1 kvs2 :
  range_order values kvs1 → range_order values kvs2 →
  grok.range_values p kvs1 = grok.range_values p kvs2.
Proof.
  intros H1 H2.
  assert (grok.tags (grok.range_values p kvs1)
          = grok.tags (grok.range_values p kvs2)) as Ht.
  { apply map_eq. intros k. by rewrite !(range_values_tags _ values). }
  assert (grok.fields (grok.range_values p kvs1)
          = grok.fields (grok.range_values p kvs2)) as Hf.
  { apply map_eq. intros k. by rewrite !(range_values_fields _ values). }
  destruct (grok.range_values p kvs1), (grok.range_values p kvs2).
  simpl in *. by subst.
Qed.

(** [ParseLine] on a parser with a grammar and a line the grammar parses. *)
Lemma ParseLine_parsed p gr line values order now :
  grok.g p = Some gr →
  grok_Parse gr (grok.Pattern p) line = inr values →
  grok.ParseLine p line order now =
  Returns (telegraf_NewMetric "grok"
             (grok.tags (grok.range_values p (order values)))
             (grok.fields (grok.range_values p (order values))) now).
Proof. intros Hg Hparse. unfold grok.ParseLine. by rewrite Hg, Hparse. Qed.

End ParseLine_facts.

(** ** Compile: what it leaves in the parser *)
Section Compile_facts.

Context `{Libraries}.

Implicit Types (p : grok.Parser).

Lemma set_g_set_g p x y : grok.set_g (grok.set_g p x) y = grok.set_g p y.
Proof. done. Qed.

Lemma set_g_same p : grok.set_g p (grok.g p) = p.
Proof. by destruct p. Qed.

(** The three steps before the filters change nothing but the grammar. *)
Lemma new_grok_only_g p :
  ∃ x, (grok.new_grok p).1 = grok.set_g p x
       ∧ ((grok.new_grok p).2 = Returns None → is_Some x).
Proof.
  unfold grok.new_grok. destruct grok_NewWithConfig as [err|gr]; simpl.
  - exists None. split; [done|]. intros [=].
  - exists (Some gr). split; [done|]. by eexists.
Qed.

Lemma add_pattern_file_only_g p :
  ∃ x, (grok.add_pattern_file p).1 = grok.set_g p x
       ∧ (is_Some (grok.g p) → is_Some x).
Proof.
  unfold grok.add_pattern_file. case_bool_decide; simpl.
  - destruct (grok.g p) as [gr|] eqn:Hg; simpl.
    + destruct (grok_AddPatternsFromPath gr _) as [gr' err]; simpl.
      exists (Some gr'). split; [done|]. by eexists.
    + exists None. split; [|by intros [? [=]]].
      by rewrite <- Hg, set_g_same.
  - exists (grok.g p). by rewrite set_g_same.
Qed.

Lemma addCustomPatterns_only_g p :
  ∃ x, (grok.addCustomPatterns p).1 = grok.set_g p x
       ∧ (is_Some (grok.g p) → is_Some x).
Proof.
  unfold grok.addCustomPatterns.
  destruct (grok.scan_patterns _ _) as [filePatterns|msg]; simpl.
  - destruct (grok.g p) as [gr|] eqn:Hg; simpl.
    + destruct (grok_AddPatternsFromMap gr _) as [gr' err]; simpl.
      exists (Some gr'). split; [done|]. by eexists.
    + exists None. split; [|by intros [? [=]]].
      by rewrite <- Hg, set_g_same.
  - exists (grok.g p). by rewrite set_g_same.
Qed.

Lemma add_custom_patterns_only_g p :
  ∃ x, (grok.add_custom_patterns p).1 = grok.set_g p x
       ∧ (is_Some (grok.g p) → is_Some x).
Proof.
  unfold grok.add_custom_patterns. case_bool_decide.
  - apply addCustomPatterns_only_g.
  - exists (grok.g p). by rewrite set_g_same.
Qed.

(** A key list that is empty is not compiled: its slot stays as it is. *)
Lemma compile_filter_empty keys set_slot p :
  keys p = [] → grok.compile_filter keys set_slot p = (p, Returns None).
Proof.
  intros Hk. unfold grok.compile_filter. by rewrite Hk.
Qed.

Lemma and_then_fst_snd (s1 s2 : grok.step) p :
  grok.and_then s1 s2 p =
  match (s1 p).2 with
  | Returns None => s2 (s1 p).1
  | _ => s1 p
  end.
Proof.
  unfold grok.and_then. by destruct (s1 p) as [p' [[err|]|msg]].
Qed.

(** With the four key lists empty, [Compile] changes the grammar only, and
    leaves one when it returns nil. *)
Lemma Compile_no_keys p :
  grok.TagKeys p = [] → grok.FieldKeysStr p = [] →
  grok.FieldKeysInt p = [] → grok.FieldKeysFloat p = [] →
  ∃ x, (grok.Compile p).1 = grok.set_g p x
       ∧ ((grok.Compile p).2 = Returns None → is_Some x).
Proof.
  intros Ht Hs Hi Hf. unfold grok.Compile.
  destruct (new_grok_only_g p) as (x1 & E1 & S1).
  rewrite and_then_fst_snd.
  destruct ((grok.new_grok p).2) as [[err|]|msg] eqn:R1;
    [exists x1; split; [done|by rewrite R1]| |
     exists x1; split; [done|by rewrite R1]].
  specialize (S1 eq_refl). rewrite E1.
  set (p1 := grok.set_g p x1).
  destruct (add_pattern_file_only_g p1) as (x2 & E2 & S2).
  specialize (S2 S1).
  rewrite and_then_fst_snd.
  destruct ((grok.add_pattern_file p1).2) as [[err|]|msg] eqn:R2;
    [exists x2; split; [by rewrite E2|by rewrite R2]| |
     exists x2; split; [by rewrite E2|by rewrite R2]].
  rewrite E2. unfold p1. rewrite set_g_set_g.
  set (p2 := grok.set_g p x2).
  destruct (add_custom_patterns_only_g p2) as (x3 & E3 & S3).
  specialize (S3 S2).
  rewrite and_then_fst_snd.
  destruct ((grok.add_custom_patterns p2).2) as [[err|]|msg] eqn:R3;
    [exists x3; split; [by rewrite E3|by rewrite R3]| |
     exists x3; split; [by rewrite E3|by rewrite R3]].
  rewrite E3. unfold p2. rewrite set_g_set_g.
  set (p3 := grok.set_g p x3).
  rewrite and_then_fst_snd, (compile_filter_empty grok.TagKeys) by done.
  cbn [fst snd].
  rewrite and_then_fst_snd, (compile_filter_empty grok.FieldKeysStr) by done.
  cbn [fst snd].
  rewrite and_then_fst_snd, (compile_filter_empty grok.FieldKeysInt) by done.
  cbn [fst snd].
  rewrite (compile_filter_empty grok.FieldKeysFloat) by done.
  exists x3. by split.
Qed.

End Compile_facts.

(** ** ParseLine: what the specification states *)
Section ParseLine_properties.

Context `{Libraries}.

Implicit Types (p : grok.Parser) (k v line : string).
Implicit Types (values : gmap string string).


(** C8.  On a matched line, a capture whose name is empty or whose value
    is empty is in neither the tags nor the fields [ParseLine] hands to
    [telegraf.NewMetric]. *)
Theorem ParseLine_skips_empty_captures p gr line values order now k v :
  grok.g p = Some gr →
  grok_Parse gr (grok.Pattern p) line = inr values →
  range_order values (order values) →
  values !! k = Some v →
  k = "" ∨ v = "" →
  let m := grok.range_values p (order values) in
  grok.ParseLine p line order now
  = Returns (telegraf_NewMetric "grok" (grok.tags m) (grok.fields m) now)
  ∧ grok.tags m !! k = None
  ∧ grok.fields m !! k = None.
Proof.
  intros Hg Hparse Hord Hk Hempty m. subst m.
  split; [by eapply ParseLine_parsed|].
  rewrite (range_values_tags _ values), (range_values_fields _ values),
    Hk by done.
  unfold grok.route. by rewrite bool_decide_eq_true_2.
Qed.

(** C7, as amended.  A capture with a name and a value, whose name the
    tag-key filter matches, is put in the tags and not in the fields,
    whatever the three field-key filters say of the name. *)
Theorem ParseLine_tag_filter_first p gr tk line values order now k v :
  grok.g p = Some gr →
  grok.tagKeys p = Some tk →
  grok_Parse gr (grok.Pattern p) line = inr values →
  range_order values (order values) →
  values !! k = Some v →
  k ≠ "" → v ≠ "" →
  glob_Match tk k = true →
  let m := grok.range_values p (order values) in
  grok.ParseLine p line order now
  = Returns (telegraf_NewMetric "grok" (grok.tags m) (grok.fields m) now)
  ∧ grok.tags m !! k = Some v
  ∧ grok.fields m !! k = None.
Proof.
  intros Hg Htk Hparse Hord Hk Hkne Hvne Hmatch m. subst m.
  split; [by eapply ParseLine_parsed|].
  rewrite (range_values_tags _ values), (range_values_fields _ values),
    Hk by done.
  unfold grok.route. rewrite bool_decide_eq_false_2 by tauto.
  by rewrite Htk, Hmatch.
Qed.

(** C9.  Two calls of [ParseLine] on the same line, each with its own order
    of visit and its own time: both return the grammar's error, or both
    hand [telegraf.NewMetric] the same tags and the same fields. *)
Theorem ParseLine_twice p gr line order1 order2 now1 now2 :
  grok.g p = Some gr →
  match grok_Parse gr (grok.Pattern p) line with
  | inl err =>
    grok.ParseLine p line order1 now1 = Returns (inl err)
    ∧ grok.ParseLine p line order2 now2 = Returns (inl err)
  | inr values =>
    range_order values (order1 values) →
    range_order values (order2 values) →
    let m := grok.range_values p (map_to_list values) in
    grok.ParseLine p line order1 now1
    = Returns (telegraf_NewMetric "grok" (grok.tags m) (grok.fields m) now1)
    ∧ grok.ParseLine p line order2 now2
      = Returns (telegraf_NewMetric "grok" (grok.tags m) (grok.fields m) now2)
  end.
Proof.
  intros Hg. destruct (grok_Parse gr _ line) as [err|values] eqn:Hparse.
  - unfold grok.ParseLine. by rewrite Hg, Hparse.
  - intros H1 H2 m. subst m.
    assert (range_order values (map_to_list values)) as H0
      by (unfold range_order; reflexivity).
    rewrite <- (range_values_order p values _ _ H1 H0) at 1 2.
    rewrite <- (range_values_order p values _ _ H2 H0).
    split; by eapply ParseLine_parsed.
Qed.

(** With the four matchers unset every capture that has a name and a value
    is routed to the fields. *)
Lemma route_unset p k v :
  grok.tagKeys p = None → grok.fieldKeysStr p = None →
  grok.fieldKeysInt p = None → grok.fieldKeysFloat p = None →
  grok.route p k v =
  if bool_decide (k = "" ∨ v = "") then grok.Dropped else grok.InFields.
Proof. intros Ht Hs Hi Hf. unfold grok.route. by rewrite Ht, Hs, Hi, Hf. Qed.

Lemma range_values_unset p values kvs :
  grok.tagKeys p = None → grok.fieldKeysStr p = None →
  grok.fieldKeysInt p = None → grok.fieldKeysFloat p = None →
  range_order values kvs →
  grok.tags (grok.range_values p kvs) = ∅
  ∧ grok.fields (grok.range_values p kvs)
    = VString <$> filter (λ kv, kv.1 ≠ "" ∧ kv.2 ≠ "") values.
Proof.
  intros Ht Hs Hi Hf Hord. split; apply map_eq; intros k.
  - rewrite (range_values_tags _ values), lookup_empty by done.
    destruct (values !! k) as [v|]; [|done].
    rewrite route_unset by done. by case_bool_decide.
  - rewrite (range_values_fields _ values), lookup_fmap by done.
    destruct (values !! k) as [v|] eqn:Hk.
    + rewrite route_unset by done. case_bool_decide as Hempty.
      * rewrite map_lookup_filter_None_2; [done|].
        right. intros v' Hk' [Hkne Hvne]. simpl in *.
        rewrite Hk in Hk'. injection Hk' as <-. by destruct Hempty.
      * erewrite map_lookup_filter_Some_2; [done|done|].
        simpl. split; intros Heq; apply Hempty; [by left|by right].
    + rewrite map_lookup_filter_None_2; [done|by left].
Qed.

(** C10.  A parser whose four key lists are empty, and whose matchers are
    unset as the configuration leaves them: [Compile] leaves the four
    matchers unset, and when it returns nil [ParseLine] has a grammar and
    hands [telegraf.NewMetric] no tag and, as string-valued fields, every
    capture that has a name and a value. *)
Theorem Compile_no_keys_then_ParseLine p :
  grok.TagKeys p = [] → grok.FieldKeysStr p = [] →
  grok.FieldKeysInt p = [] → grok.FieldKeysFloat p = [] →
  grok.tagKeys p = None → grok.fieldKeysStr p = None →
  grok.fieldKeysInt p = None → grok.fieldKeysFloat p = None →
  let p' := (grok.Compile p).1 in
  (grok.tagKeys p' = None ∧ grok.fieldKeysStr p' = None
   ∧ grok.fieldKeysInt p' = None ∧ grok.fieldKeysFloat p' = None)
  ∧ ((grok.Compile p).2 = Returns None →
     ∃ gr, grok.g p' = Some gr ∧
     ∀ line order now,
       match grok_Parse gr (grok.Pattern p') line with
       | inl err => grok.ParseLine p' line order now = Returns (inl err)
       | inr values =>
         range_order values (order values) →
         grok.ParseLine p' line order now
         = Returns (telegraf_NewMetric "grok" ∅
                      (VString <$> filter (λ kv, kv.1 ≠ "" ∧ kv.2 ≠ "")
                                          values)
                      now)
       end).
Proof.
  intros HT HS HI HF Ht Hs Hi Hf p'.
  destruct (Compile_no_keys p HT HS HI HF) as (x & Ep & Sx).
  assert (grok.tagKeys p' = None ∧ grok.fieldKeysStr p' = None
          ∧ grok.fieldKeysInt p' = None ∧ grok.fieldKeysFloat p' = None)
    as (Ht' & Hs' & Hi' & Hf').
  { subst p'. rewrite Ep. simpl. done. }
  split; [done|].
  intros Hnil. destruct (Sx Hnil) as [gr ->]. exists gr.
  assert (grok.g p' = Some gr) as Hg by (subst p'; by rewrite Ep).
  split; [done|]. intros line order now.
  destruct (grok_Parse gr _ line) as [err|values] eqn:Hparse.
  - unfold grok.ParseLine. by rewrite Hg, Hparse.
  - intros Hord.
    destruct (range_values_unset p' values (order values)) as [Etags Efields];
      [done..|].
    rewrite <- Etags, <- Efields. by eapply ParseLine_parsed.
Qed.

(** Once a field-key filter is set, the first of them in the order int,
    float, string decides alone: a capture it does not match, and that is
    no tag, is in no map, whatever the filters after it say. *)
Lemma ParseLine_first_field_filter_decides p values kvs k v first :
  range_order values kvs →
  values !! k = Some v →
  (match grok.tagKeys p with Some tk => glob_Match tk k | None => false end)
  = false →
  (match grok.fieldKeysInt p, grok.fieldKeysFloat p with
   | Some ki, _ => Some ki
   | None, Some kf => Some kf
   | None, None => grok.fieldKeysStr p
   end) = Some first →
  glob_Match first k = false →
  grok.tags (grok.range_values p kvs) !! k = None
  ∧ grok.fields (grok.range_values p kvs) !! k = None.
Proof.
  intros Hord Hk Htag Hfirst Hmatch.
  rewrite (range_values_tags _ values), (range_values_fields _ values),
    Hk by done.
  unfold grok.route. rewrite Htag. case_bool_decide; [done|].
  destruct (grok.fieldKeysInt p) as [ki|].
  { injection Hfirst as ->. by rewrite Hmatch. }
  destruct (grok.fieldKeysFloat p) as [kf|].
  { injection Hfirst as ->. by rewrite Hmatch. }
  by rewrite Hfirst, Hmatch.
Qed.

End ParseLine_properties.

(** ** ParseLine at work in the small world *)
Section ParseLine_examples.

Import testbed.

Lemma range_order_map_to_list (values : gmap string string) :
  range_order values (map_to_list values).
Proof. unfold range_order. reflexivity. Qed.



(** What [ParseLine] returns there: a metric with no tag and no field. *)
Example ParseLine_silent_garbage :
  parse_words "garbage" = inl "no match"
  ∧ @grok.ParseLine silent silent_parser "garbage" map_to_list 0%Z
    = Returns (inr {| name := "grok"; tags := ∅; fields := ∅; time := 0 |}).
Proof. split; reflexivity. Qed.

Lemma ParseLine_skips_empty_captures_witness :
  blank_captures !! "host" = Some ""
  ∧ grok.tags (grok.range_values host_tagged (map_to_list blank_captures))
    !! "host" = None
  ∧ grok.fields (grok.range_values host_tagged (map_to_list blank_captures))
    !! "host" = None.
Proof.
  split; [reflexivity|].
  apply (ParseLine_skips_empty_captures host_tagged ∅ blank_line
           blank_captures map_to_list 0%Z "host" "");
    [reflexivity|reflexivity|apply range_order_map_to_list|reflexivity
    |right; reflexivity].
Defined.

Lemma ParseLine_tag_filter_first_witness :
  host_captures !! "host" = Some "web1"
  ∧ glob_Match ["*"] "host" = true
  ∧ grok.tags (grok.range_values host_tagged (map_to_list host_captures))
    !! "host" = Some "web1"
  ∧ grok.fields (grok.range_values host_tagged (map_to_list host_captures))
    !! "host" = None.
Proof.
  split; [reflexivity|]. split; [reflexivity|].
  apply (ParseLine_tag_filter_first host_tagged ∅ ["host"] host_line
           host_captures map_to_list 0%Z "host" "web1");
    [reflexivity|reflexivity|reflexivity|apply range_order_map_to_list
    |reflexivity|discriminate|discriminate|reflexivity].
Defined.

(** C7 as the specification words it fails: the capture [host] of
    [blank_line] has a name the tag-key filter matches and an empty value,
    and [ParseLine] leaves it out of the tags. *)
Lemma ParseLine_tag_filter_always_counterexample :
  ¬ (∀ (L : Libraries) (p : grok.Parser) gr tk line values order now k v,
       grok.g p = Some gr →
       grok.tagKeys p = Some tk →
       grok_Parse gr (grok.Pattern p) line = inr values →
       range_order values (order values) →
       values !! k = Some v →
       glob_Match tk k = true →
       let m := grok.range_values p (order values) in
       grok.ParseLine p line order now
       = Returns (telegraf_NewMetric "grok" (grok.tags m) (grok.fields m) now)
       ∧ grok.tags m !! k = Some v
       ∧ grok.fields m !! k = None).
Proof.
  intros Hclaim.
  destruct (Hclaim libraries host_tagged ∅ ["host"] blank_line blank_captures
              map_to_list 0%Z "host" "") as (_ & Htag & _);
    [reflexivity|reflexivity|reflexivity|apply range_order_map_to_list
    |reflexivity|reflexivity|].
  vm_compute in Htag. discriminate.
Qed.

Lemma ParseLine_twice_witness :
  grok.ParseLine host_tagged host_line map_to_list 1%Z
  = Returns (inr {| name := "grok";
                    tags := {["host" := "web1"]};
                    fields := {["verb" := VString "GET"]};
                    time := 1 |})
  ∧ grok.ParseLine host_tagged host_line (λ m, reverse (map_to_list m)) 2%Z
    = Returns (inr {| name := "grok";
                      tags := {["host" := "web1"]};
                      fields := {["verb" := VString "GET"]};
                      time := 2 |}).
Proof.
  apply (ParseLine_twice host_tagged ∅ host_line map_to_list
           (λ m, reverse (map_to_list m)) 1%Z 2%Z eq_refl).
  - apply range_order_map_to_list.
  - unfold range_order. apply reverse_Permutation.
Defined.

Lemma Compile_no_keys_then_ParseLine_witness :
  (grok.Compile (configured "%{PAIRS}" "" [] [] [] [])).2 = Returns None
  ∧ grok.tagKeys unfiltered = None
  ∧ grok.ParseLine unfiltered blank_line map_to_list 0%Z
    = Returns (inr {| name := "grok"; tags := ∅;
                      fields := {["verb" := VString "GET"]};
                      time := 0 |}).
Proof.
  split; [reflexivity|].
  destruct (Compile_no_keys_then_ParseLine
              (configured "%{PAIRS}" "" [] [] [] [])
              eq_refl eq_refl eq_refl eq_refl eq_refl eq_refl eq_refl eq_refl)
    as [(Ht & _) Hparse].
  split; [exact Ht|].
  destruct (Hparse eq_refl) as (gr & Hg & Hline).
  injection Hg as <-.
  exact (Hline blank_line map_to_list 0%Z
           (range_order_map_to_list blank_captures)).
Defined.

(** C1 on the code.  With the int-field filter [response] and the
    float-field filter [bytes], the line gives [response] and [bytes], and
    [ParseLine] keeps [response] only: the float-field filter is never
    asked, and [bytes] is in no map. *)
Theorem ParseLine_int_filter_drops_bytes :
  grok.fieldKeysInt response_and_bytes = Some ["response"]
  ∧ grok.fieldKeysFloat response_and_bytes = Some ["bytes"]
  ∧ grok_Parse (∅ : gmap string string) "%{PAIRS}" "response=200 bytes=612"
    = inr (list_to_map [("response", "200"); ("bytes", "612")])
  ∧ grok.ParseLine response_and_bytes "response=200 bytes=612" map_to_list 0%Z
    = Returns (inr {| name := "grok"; tags := ∅;
                      fields := {["response" := VString "200"]};
                      time := 0 |}).
Proof. repeat split; vm_compute; reflexivity. Qed.

End ParseLine_examples.

(** ** addCustomPatterns: a line without a fragment *)
Section addCustomPatterns_facts.

Context `{Libraries}.

(** A line with no space splits into one string. *)
Lemma SplitN_no_space l :
  cut_at_space l = None → strings_SplitN_space_2 l = [l].
Proof. intros Hcut. unfold strings_SplitN_space_2. by rewrite Hcut. Qed.

(** A line with a space splits at the first one. *)
Lemma SplitN_space l before rest :
  cut_at_space l = Some (before, rest) →
  strings_SplitN_space_2 l = [before; rest]
  ∧ l = before +:+ " " +:+ rest
  ∧ cut_at_space before = None.
Proof.
  intros Hcut. unfold strings_SplitN_space_2. rewrite Hcut.
  split; [done|]. revert before rest Hcut.
  induction l as [|c l IH]; intros before rest Hcut; [done|].
  simpl in Hcut. destruct (byte_is c 32) eqn:Hc.
  - injection Hcut as <- <-. split; [|done]. simpl. f_equal.
    unfold byte_is in Hc. apply N.eqb_eq in Hc.
    rewrite <- (ascii_N_embedding c), Hc. done.
  - destruct (cut_at_space l) as [[b r]|]; [|done].
    injection Hcut as <- <-. destruct (IH b r eq_refl) as [-> Hb].
    split; [done|]. simpl. by rewrite Hc, Hb.
Qed.

(** What the loop does with one line: it trims it, passes over it when it
    is blank or starts with [#], and else records the text before its
    first space as the name of the text after it. *)
Lemma scan_patterns_line text lines filePatterns :
  grok.scan_patterns (text :: lines) filePatterns =
  match strings_TrimSpace text with
  | EmptyString => grok.scan_patterns lines filePatterns
  | String c _ as l =>
    if byte_is c 35 then grok.scan_patterns lines filePatterns
    else match cut_at_space l with
    | Some (name, fragment) =>
      grok.scan_patterns lines (<[name := fragment]> filePatterns)
    | None => Panics index_out_of_range
    end
  end.
Proof.
  cbn [grok.scan_patterns].
  destruct (strings_TrimSpace text) as [|c rest]; [done|].
  destruct (byte_is c 35); [done|].
  unfold strings_SplitN_space_2.
  by destruct (cut_at_space (String c rest)) as [[name fragment]|].
Qed.

(** The loop panics as soon as one of the lines still to be read is
    neither blank nor a comment and has no space. *)
Lemma scan_patterns_line_without_fragment lines : ∀ filePatterns text c rest,
  text ∈ lines →
  strings_TrimSpace text = String c rest →
  byte_is c 35 = false →
  cut_at_space (String c rest) = None →
  grok.scan_patterns lines filePatterns = Panics index_out_of_range.
Proof.
  induction lines as [|first lines IH];
    intros filePatterns text c rest Hin Htrim Hc Hcut.
  - by apply elem_of_nil in Hin.
  - apply elem_of_cons in Hin as [<-|Hin].
    + cbn [grok.scan_patterns]. rewrite Htrim, Hc.
      by rewrite (SplitN_no_space _ Hcut).
    + cbn [grok.scan_patterns].
      destruct (strings_TrimSpace first) as [|c' rest'] eqn:Hfirst;
        [by eapply IH|].
      destruct (byte_is c' 35); [by eapply IH|].
      destruct (cut_at_space (String c' rest')) as [[b r]|] eqn:Hcut'.
      * destruct (SplitN_space _ _ _ Hcut') as (-> & _). cbn.
        by eapply IH.
      * by rewrite (SplitN_no_space _ Hcut').
Qed.

(** C4 on the code.  When a line of the custom patterns, once trimmed, is
    neither blank nor a comment and has no space to split at,
    [addCustomPatterns] does not return an error: it panics on [names[1]],
    and the grammar is left as it was. *)
Theorem addCustomPatterns_line_without_fragment p text c rest :
  text ∈ bufio_ScanLines (grok.CustomPatterns p) →
  strings_TrimSpace text = String c rest →
  byte_is c 35 = false →
  cut_at_space (String c rest) = None →
  grok.addCustomPatterns p = (p, Panics index_out_of_range).
Proof.
  intros Hin Htrim Hc Hcut. unfold grok.addCustomPatterns.
  by rewrite (scan_patterns_line_without_fragment _ ∅ text c rest).
Qed.

End addCustomPatterns_facts.

Lemma addCustomPatterns_line_without_fragment_witness :
  bufio_ScanLines (grok.CustomPatterns testbed.nameless) = ["FOO"]
  ∧ grok.addCustomPatterns testbed.nameless
    = (testbed.nameless, Panics index_out_of_range).
Proof.
  split; [reflexivity|].
  apply (addCustomPatterns_line_without_fragment testbed.nameless
           "FOO" "F" "OO");
    [by apply list_elem_of_singleton|reflexivity..].
Defined.

(** [Compile] panics with it. *)
Example Compile_line_without_fragment :
  (grok.Compile testbed.nameless).2 = Panics index_out_of_range.
Proof. reflexivity. Qed.

(** ** Start *)
Section Start_facts.

Context `{Libraries}.

Implicit Types (l : logparser.LogParserPlugin) (st : logparser.Tailing).
Implicit Types (files filepaths : list string) (seek : SeekInfo).

Lemma append_cons c (s1 s2 : string) :
  String c s1 +:+ s2 = String c (s1 +:+ s2).
Proof. reflexivity. Qed.

Lemma append_assoc (s1 s2 s3 : string) :
  (s1 +:+ s2) +:+ s3 = s1 +:+ (s2 +:+ s3).
Proof.
  induction s1 as [|c s1 IH]; [done|]. by rewrite !append_cons, IH.
Qed.

Lemma append_empty_r (s : string) : s +:+ "" = s.
Proof. induction s as [|c s IH]; [done|]. by rewrite append_cons, IH. Qed.

Lemma append_eq_empty (s1 s2 : string) : s1 +:+ s2 = "" → s1 = "" ∧ s2 = "".
Proof. by destruct s1. Qed.

(** One failure is enough for the joined messages not to be empty. *)
Lemma join_errors_empty errs : logparser.join_errors errs = "" ↔ errs = [].
Proof.
  split; [|by intros ->].
  destruct errs as [|err errs]; [done|]. simpl.
  intros [_ [=]]%append_eq_empty.
Qed.

(** The reflection loop finds the grok parser when it is set, and nothing
    else. *)
Lemma find_parsers_GrokParser l :
  logparser.find_parsers l =
  match logparser.GrokParser l with
  | Some _ => [logparser.GrokParserPtr]
  | None => []
  end.
Proof.
  unfold logparser.find_parsers. simpl.
  by destruct (logparser.GrokParser l).
Qed.

(** The plugin after sessions were added to it one by one. *)
Lemma foldl_add_tailer ts : ∀ l,
  foldl logparser.add_tailer l ts =
  {| logparser.Files := logparser.Files l;
     logparser.FromBeginning := logparser.FromBeginning l;
     logparser.tailers := logparser.tailers l ++ ts;
     logparser.wg := (logparser.wg l + Z.of_nat (length ts))%Z;
     logparser.acc := logparser.acc l;
     logparser.parsers := logparser.parsers l;
     logparser.GrokParser := logparser.GrokParser l |}.
Proof.
  induction ts as [|t ts IH]; intros l.
  - simpl. rewrite app_nil_r, Z.add_0_r. by destruct l.
  - cbn [foldl]. rewrite IH. simpl. f_equal.
    + by rewrite <- app_assoc.
    + lia.
Qed.

(** The inner loop: every file is tried once, in order; a session that
    opens is added and gets its receiver, an error adds its message. *)
Lemma tail_files_spec seek files : ∀ st,
  logparser.tail_files seek files st =
  let config := logparser.tail_config seek in
  {| logparser.plugin :=
       foldl logparser.add_tailer (logparser.plugin st)
             (logparser.opened config files);
     logparser.errS :=
       logparser.errS st
       +:+ logparser.join_errors (logparser.failures config files);
     logparser.trace := logparser.trace st ++ logparser.calls config files |}.
Proof.
  induction files as [|file files IH]; intros st.
  - simpl. rewrite append_empty_r, app_nil_r. by destruct st.
  - cbn [logparser.tail_files]. cbn zeta.
    unfold logparser.opened, logparser.failures, logparser.calls in *.
    cbn [omap list_omap flat_map].
    destruct (tail_TailFile file _) as [err|tailer]; rewrite IH; cbn.
    + f_equal.
      * by rewrite !append_assoc.
      * by rewrite <- !app_assoc.
    + f_equal. by rewrite <- !app_assoc.
Qed.

(** Two runs of the inner loop in a row are one run over both lists. *)
Lemma tail_files_app seek files1 files2 st :
  logparser.tail_files seek (files1 ++ files2) st
  = logparser.tail_files seek files2 (logparser.tail_files seek files1 st).
Proof.
  revert st. induction files1 as [|file files1 IH]; intros st; [done|].
  cbn [app logparser.tail_files]. cbn zeta.
  by destruct (tail_TailFile file _); rewrite IH.
Qed.

(** The outer loop over patterns that all compile is the inner loop over
    the files they resolve to. *)
Lemma glob_files_compiled seek filepaths : ∀ st,
  (∀ filepath, filepath ∈ filepaths →
               ∃ gp, globpath_Compile filepath = inr gp) →
  logparser.glob_files seek filepaths st
  = (logparser.tail_files seek (logparser.resolve filepaths) st, Returns ()).
Proof.
  induction filepaths as [|filepath filepaths IH]; intros st Hall; [done|].
  destruct (Hall filepath) as [gp Hgp]; [by left|].
  unfold logparser.resolve in *.
  cbn [logparser.glob_files flat_map]. rewrite Hgp.
  rewrite IH by (intros fp Hfp; apply Hall; by right).
  by rewrite tail_files_app.
Qed.

(** The outer loop up to the first pattern that does not compile: the
    failure is logged after the earlier patterns were dealt with. *)
Lemma glob_files_bad_glob seek pre filepath post err : ∀ st,
  (∀ fp, fp ∈ pre → ∃ gp, globpath_Compile fp = inr gp) →
  globpath_Compile filepath = inl err →
  let st' := logparser.tail_files seek (logparser.resolve pre) st in
  (logparser.glob_files seek (pre ++ filepath :: post) st).1
  = {| logparser.plugin := logparser.plugin st';
       logparser.errS := logparser.errS st';
       logparser.trace :=
         logparser.trace st' ++ [logparser.LogGlobFailed filepath err] |}.
Proof.
  induction pre as [|fp pre IH]; intros st Hall Hbad.
  - cbn. by rewrite Hbad.
  - destruct (Hall fp) as [gp Hgp]; [by left|].
    unfold logparser.resolve in *.
    cbn [app logparser.glob_files flat_map]. rewrite Hgp.
    rewrite IH by (try done; intros fp' Hfp; apply Hall; by right).
    cbn zeta. by rewrite tail_files_app.
Qed.

(** [Start] up to the loop over the files, for a plugin with a grok
    parser. *)
Lemma Start_with_parser l a p :
  logparser.GrokParser l = Some p →
  logparser.Start l a =
  let l2 := logparser.set_run l (Some a) [logparser.GrokParserPtr] in
  let l3 := logparser.set_GrokParser l2 (Some (grok.Compile p).1) in
  match (grok.Compile p).2 with
  | Returns None =>
    let '(st, r) :=
      logparser.glob_files (logparser.start_seek l3) (logparser.Files l3)
        {| logparser.plugin := l3; logparser.errS := "";
           logparser.trace := [] |} in
    match r with
    | Panics msg => (logparser.plugin st, logparser.trace st, Panics msg)
    | Returns _ =>
      if bool_decide (logparser.errS st ≠ "")
      then (logparser.plugin st, logparser.trace st,
            Returns (Some (fmt_Errorf (logparser.errS st))))
      else (logparser.plugin st, logparser.trace st, Returns None)
    end
  | stopped => (l3, [], stopped)
  end.
Proof.
  intros Hp. unfold logparser.Start.
  rewrite find_parsers_GrokParser. cbn [logparser.set_run logparser.GrokParser].
  rewrite Hp. cbn.
  rewrite Hp. destruct (grok.Compile p) as [p' [[err|]|msg]]; done.
Qed.

End Start_facts.

(** ** Start: what the specification states *)
Section Start_properties.

Context `{Libraries}.

Implicit Types (l : logparser.LogParserPlugin).

(** The calls of the files loop stop and clean up no session. *)
Lemma calls_no_stop config files tailer :
  (logparser.CallStop tailer ∉ logparser.calls config files)
  ∧ (logparser.CallCleanup tailer ∉ logparser.calls config files).
Proof.
  unfold logparser.calls.
  split; intros (file & _ & Hin)%list_elem_of_In%in_flat_map;
    destruct (tail_TailFile file config);
    repeat (destruct Hin as [[=]|Hin]); done.
Qed.

(** C6.  When the loop over the struct's fields finds no parser, [Start]
    returns the error "no parsers defined"; it calls [tail.TailFile] for no
    file, starts no receiver and leaves the sessions as they were. *)
Theorem Start_no_parsers l a :
  logparser.find_parsers l = [] →
  let l' := logparser.set_run l (Some a) [] in
  logparser.Start l a
  = (l', [],
     Returns (Some (fmt_Errorf
                      "ERROR: logparser input plugin: no parsers defined.")))
  ∧ logparser.tailers l' = logparser.tailers l
  ∧ logparser.wg l' = logparser.wg l.
Proof.
  intros Hnone l'. split; [|done].
  unfold logparser.Start.
  rewrite find_parsers_GrokParser in *.
  cbn [logparser.set_run logparser.GrokParser].
  by destruct (logparser.GrokParser l).
Qed.

(** C2.  A plugin whose parser compiles and whose file patterns all
    compile.  [Start] calls [tail.TailFile] once for every file the patterns
    resolve to, in order, whichever of them fail; every session that opens
    is added to [l.tailers] and gets its receiver, and none is stopped or
    cleaned up; the result is nil when all opened and otherwise the one
    error made of the failures' messages, a space after each. *)
Theorem Start_collects_open_failures l a p :
  logparser.GrokParser l = Some p →
  (grok.Compile p).2 = Returns None →
  (∀ filepath, filepath ∈ logparser.Files l →
               ∃ gp, globpath_Compile filepath = inr gp) →
  let config := logparser.tail_config (logparser.start_seek l) in
  let files := logparser.resolve (logparser.Files l) in
  ∃ l',
    logparser.Start l a
    = (l', logparser.calls config files,
       match logparser.failures config files with
       | [] => Returns None
       | errs => Returns (Some (fmt_Errorf (logparser.join_errors errs)))
       end)
    ∧ logparser.tailers l'
      = logparser.tailers l ++ logparser.opened config files
    ∧ logparser.wg l'
      = (logparser.wg l + Z.of_nat (length (logparser.opened config files)))%Z
    ∧ ∀ tailer,
        (logparser.CallStop tailer ∉ logparser.calls config files)
        ∧ (logparser.CallCleanup tailer ∉ logparser.calls config files).
Proof.
  intros Hp Hcompiled Hglobs config files.
  rewrite (Start_with_parser l a p Hp), Hcompiled. cbn zeta.
  rewrite glob_files_compiled by done.
  rewrite tail_files_spec. cbn zeta.
  cbn [logparser.plugin logparser.errS logparser.trace].
  rewrite foldl_add_tailer.
  cbn [logparser.set_GrokParser logparser.set_run logparser.Files
       logparser.FromBeginning logparser.tailers logparser.wg].
  change (logparser.start_seek _) with (logparser.start_seek l).
  fold config. fold files.
  assert (∀ s : string, "" +:+ s = s) as Hempty by done.
  rewrite Hempty, app_nil_l.
  destruct (logparser.failures config files) as [|err errs] eqn:Hfail.
  - rewrite bool_decide_eq_false_2 by (intros Hne; by apply Hne).
    eexists. split; [reflexivity|]. cbn.
    repeat split; apply calls_no_stop.
  - rewrite bool_decide_eq_true_2 by (by intros [=]%join_errors_empty).
    eexists. split; [reflexivity|]. cbn.
    repeat split; apply calls_no_stop.
Qed.

(** C5, as amended.  A plugin with a grok parser.  When the parser's
    [Compile] returns an error, [Start] returns that error, having called
    [tail.TailFile] for no file and started no receiver.  When the parser
    compiles and a file pattern does not, the patterns before it all
    compiling, [Start] logs the pattern's error after the calls made for
    the earlier patterns, whose sessions stay in [l.tailers]. *)
Theorem Start_compile_failure l a p :
  logparser.GrokParser l = Some p →
  (∀ err, (grok.Compile p).2 = Returns (Some err) →
     ∃ l', logparser.Start l a = (l', [], Returns (Some err))
           ∧ logparser.tailers l' = logparser.tailers l
           ∧ logparser.wg l' = logparser.wg l)
  ∧ (∀ pre filepath post err,
       (grok.Compile p).2 = Returns None →
       logparser.Files l = pre ++ filepath :: post →
       (∀ fp, fp ∈ pre → ∃ gp, globpath_Compile fp = inr gp) →
       globpath_Compile filepath = inl err →
       let config := logparser.tail_config (logparser.start_seek l) in
       (logparser.Start l a).1.2
       = logparser.calls config (logparser.resolve pre)
         ++ [logparser.LogGlobFailed filepath err]
       ∧ logparser.tailers (logparser.Start l a).1.1
         = logparser.tailers l
           ++ logparser.opened config (logparser.resolve pre)).
Proof.
  intros Hp. split.
  - intros err Herr. rewrite (Start_with_parser l a p Hp), Herr.
    cbn zeta. by eexists.
  - intros pre filepath post err Hcompiled Hfiles Hpre Hbad config.
    rewrite (Start_with_parser l a p Hp), Hcompiled. cbn zeta.
    cbn [logparser.set_GrokParser logparser.set_run logparser.Files].
    rewrite Hfiles.
    match goal with
    | |- context [logparser.glob_files ?seek _ ?st] =>
      pose proof (glob_files_bad_glob seek pre filepath post err st Hpre Hbad)
        as Hloop;
      destruct (logparser.glob_files seek (pre ++ filepath :: post) st)
        as [st' r]
    end.
    cbn zeta in Hloop. cbn [fst] in Hloop. subst st'.
    rewrite tail_files_spec. cbn zeta.
    cbn [logparser.plugin logparser.errS logparser.trace].
    rewrite foldl_add_tailer.
    destruct r as [[]|msg]; [case_bool_decide|]; done.
Qed.

End Start_properties.

(** ** Start at work in the small world *)
Section Start_examples.

Import testbed.

Lemma Start_no_parsers_witness :
  logparser.find_parsers testbed.no_parser = []
  ∧ logparser.Start testbed.no_parser ()
    = (logparser.set_run testbed.no_parser (Some ()) [], [],
       Returns (Some "ERROR: logparser input plugin: no parsers defined.")).
Proof.
  split; [reflexivity|].
  apply (Start_no_parsers testbed.no_parser () eq_refl).
Defined.

Lemma all_logs_compile filepath :
  filepath ∈ logparser.Files testbed.all_logs →
  ∃ gp, globpath_Compile filepath = inr gp.
Proof. intros ->%list_elem_of_singleton. by eexists. Qed.

Lemma Start_collects_open_failures_witness :
  ∃ l',
    logparser.Start testbed.all_logs ()
    = (l',
       [logparser.CallTailFile "/var/log/a.log"
          (logparser.tail_config {| Offset := 0; Whence := 2 |});
        logparser.GoReceiver "/var/log/a.log";
        logparser.CallTailFile "/var/log/b.log"
          (logparser.tail_config {| Offset := 0; Whence := 2 |});
        logparser.CallTailFile "/var/log/c.log"
          (logparser.tail_config {| Offset := 0; Whence := 2 |});
        logparser.GoReceiver "/var/log/c.log";
        logparser.CallTailFile "/var/log/d.log"
          (logparser.tail_config {| Offset := 0; Whence := 2 |})],
       Returns (Some ("open /var/log/b.log: permission denied "
                      +:+ "open /var/log/d.log: permission denied ")))
    ∧ logparser.tailers l' = ["/var/log/a.log"; "/var/log/c.log"]
    ∧ logparser.wg l' = 2%Z.
Proof.
  destruct (Start_collects_open_failures testbed.all_logs ()
              (testbed.configured "%{PAIRS}" "" [] [] [] [])
              eq_refl eq_refl all_logs_compile)
    as (l' & HStart & Htailers & Hwg & _).
  exists l'. split; [exact HStart|]. split; [exact Htailers|exact Hwg].
Defined.

Lemma Start_compile_failure_witness :
  (grok.Compile testbed.bad_filter).2
  = Returns (Some "unexpected end of input")
  ∧ ∃ l', logparser.Start testbed.parser_bad ()
          = (l', [], Returns (Some "unexpected end of input"))
          ∧ logparser.tailers l' = []
          ∧ logparser.wg l' = 0%Z.
Proof.
  split; [reflexivity|].
  apply (Start_compile_failure testbed.parser_bad () testbed.bad_filter
           eq_refl).
  reflexivity.
Defined.

(** The second pattern of [second_glob_bad]: what [Start] has done when it
    logs the failure. *)
Example Start_second_glob_bad :
  (logparser.Start second_glob_bad ()).1.2
  = [logparser.CallTailFile "/var/log/a.log"
       (logparser.tail_config {| Offset := 0; Whence := 2 |});
     logparser.GoReceiver "/var/log/a.log";
     logparser.LogGlobFailed "[x" "unexpected end of input"]
  ∧ logparser.tailers (logparser.Start second_glob_bad ()).1.1
    = ["/var/log/a.log"].
Proof. split; reflexivity. Qed.

(** C5 as the specification words it fails: the second pattern of
    [second_glob_bad] does not compile, and by then [Start] has started
    the receiver of the first pattern's file. *)
Lemma Start_glob_failure_aborts_counterexample :
  ¬ (∀ (L : Libraries) (l : logparser.LogParserPlugin) a p filepath err,
       logparser.GrokParser l = Some p →
       (grok.Compile p).2 = Returns None →
       filepath ∈ logparser.Files l →
       globpath_Compile filepath = inl err →
       (logparser.Start l a).2 = Returns (Some err)
       ∧ (∀ tailer,
            logparser.GoReceiver tailer ∉ (logparser.Start l a).1.2)).
Proof.
  intros Hclaim.
  destruct (Hclaim testbed.libraries testbed.second_glob_bad ()
              (testbed.configured "%{PAIRS}" "" [] [] [] [])
              "[x" "unexpected end of input")
    as [_ Hnone]; [reflexivity|reflexivity| |reflexivity|].
  - apply list_elem_of_In. right. by left.
  - apply (Hnone "/var/log/a.log").
    apply list_elem_of_In. right. by left.
Qed.

End Start_examples.

(** * Further properties *)

(** ** ParseLine: the metric it builds *)
Section ParseLine_metric.

Context `{Libraries}.

Implicit Types (p : grok.Parser) (k v line : string).
Implicit Types (values : gmap string string) (kvs : list (string * string)).

(** The branch of the loop, by the two readings. *)
Lemma route_kept p k v :
  grok.route p k v =
  if grok.kept_as_tag p (k, v) then grok.InTags
  else if grok.kept_as_field p (k, v) then grok.InFields
  else grok.Dropped.
Proof.
  unfold grok.route, grok.kept_as_tag, grok.kept_as_field, grok.named_value,
    grok.tag_match, grok.field_match, grok.first_field_filter.
  cbn [fst snd].
  destruct (bool_decide (k = "" ∨ v = "")); cbn [negb andb]; [done|].
  destruct (match grok.tagKeys p with
            | Some tk => glob_Match tk k
            | None => false
            end); cbn [negb andb]; [done|].
  destruct (grok.fieldKeysInt p) as [ki|]; [by destruct (glob_Match ki k)|].
  destruct (grok.fieldKeysFloat p) as [kf|]; [by destruct (glob_Match kf k)|].
  destruct (grok.fieldKeysStr p) as [ks|]; [by destruct (glob_Match ks k)|].
  done.
Qed.

Lemma kept_not_both p kv :
  grok.kept_as_tag p kv = true → grok.kept_as_field p kv = false.
Proof.
  unfold grok.kept_as_tag, grok.kept_as_field.
  intros [_ ->]%andb_true_iff. by rewrite andb_false_r.
Qed.

(** The two maps of the loop, as filters of the captures. *)
Lemma range_values_filters p values kvs :
  range_order values kvs →
  grok.tags (grok.range_values p kvs)
  = filter (λ kv, grok.kept_as_tag p kv = true) values
  ∧ grok.fields (grok.range_values p kvs)
    = VString <$> filter (λ kv, grok.kept_as_field p kv = true) values.
Proof.
  intros Hord. split; apply map_eq; intros k.
  - rewrite (range_values_tags _ values) by done.
    destruct (values !! k) as [v|] eqn:Hk.
    + rewrite route_kept.
      destruct (grok.kept_as_tag p (k, v)) eqn:Htag.
      * symmetry. by apply map_lookup_filter_Some_2.
      * assert (filter (λ kv, grok.kept_as_tag p kv = true) values !! k = None)
          as ->.
        { apply map_lookup_filter_None_2. right. intros v' Hk' Hkept.
          rewrite Hk in Hk'. injection Hk' as <-. congruence. }
        by destruct (grok.kept_as_field p (k, v)).
    + symmetry. apply map_lookup_filter_None_2. by left.
  - rewrite (range_values_fields _ values), lookup_fmap by done.
    destruct (values !! k) as [v|] eqn:Hk.
    + rewrite route_kept.
      destruct (grok.kept_as_field p (k, v)) eqn:Hfield.
      * erewrite map_lookup_filter_Some_2; [|done..].
        destruct (grok.kept_as_tag p (k, v)) eqn:Htag; [|done].
        apply kept_not_both in Htag. congruence.
      * assert (filter (λ kv, grok.kept_as_field p kv = true) values !! k
                = None) as ->.
        { apply map_lookup_filter_None_2. right. intros v' Hk' Hkept.
          rewrite Hk in Hk'. injection Hk' as <-. congruence. }
        by destruct (grok.kept_as_tag p (k, v)).
    + rewrite map_lookup_filter_None_2; [done|by left].
Qed.

(** X1.  On a line the grammar parses, the metric [ParseLine] asks for is
    made of the captures alone, whatever the order of the visit: its tags
    are the captures with a name and a value that the tag-key matcher
    matches, its fields the string values of the other captures with a
    name and a value that pass the first field-key matcher that is set
    (int, then float, then string), or all of them when none is set. *)
Theorem ParseLine_metric_of_captures p gr line values order now :
  grok.g p = Some gr →
  grok_Parse gr (grok.Pattern p) line = inr values →
  range_order values (order values) →
  grok.ParseLine p line order now
  = Returns (telegraf_NewMetric "grok"
               (filter (λ kv, grok.kept_as_tag p kv = true) values)
               (VString <$> filter (λ kv, grok.kept_as_field p kv = true)
                                   values)
               now).
Proof.
  intros Hg Hparse Hord.
  destruct (range_values_filters p values (order values) Hord) as [<- <-].
  by eapply ParseLine_parsed.
Qed.

(** X2.  No name is both a tag and a field after the loop, and every tag
    and every field has the name of a capture. *)
Theorem range_values_tags_fields_apart p values kvs k :
  range_order values kvs →
  let m := grok.range_values p kvs in
  ¬ (is_Some (grok.tags m !! k) ∧ is_Some (grok.fields m !! k))
  ∧ (is_Some (grok.tags m !! k) ∨ is_Some (grok.fields m !! k) →
     is_Some (values !! k)).
Proof.
  intros Hord m. subst m.
  rewrite (range_values_tags _ values), (range_values_fields _ values)
    by done.
  destruct (values !! k) as [v|].
  - split; [|by eexists].
    destruct (grok.route p k v); intros [[? ?] [? ?]]; done.
  - split; [by intros [[? ?] _]|by intros [[? ?]|[? ?]]].
Qed.

(** X3.  Nothing is converted: a tag is the capture's value, and a field
    is the capture's value as a string, also when the int-field or the
    float-field matcher is the one that let it through. *)
Theorem range_values_unconverted p values kvs k :
  range_order values kvs →
  let m := grok.range_values p kvs in
  (∀ v, grok.tags m !! k = Some v → values !! k = Some v ∧ k ≠ "" ∧ v ≠ "")
  ∧ (∀ x, grok.fields m !! k = Some x →
          ∃ v, x = VString v ∧ values !! k = Some v ∧ k ≠ "" ∧ v ≠ "").
Proof.
  intros Hord m. subst m.
  rewrite (range_values_tags _ values), (range_values_fields _ values)
    by done.
  assert (∀ v, grok.route p k v ≠ grok.Dropped → k ≠ "" ∧ v ≠ "") as Hnamed.
  { intros v. unfold grok.route. case_bool_decide as Hempty; [done|].
    intros _. split; intros ->; apply Hempty; [by left|by right]. }
  destruct (values !! k) as [v|]; [|done].
  split.
  - intros v'. destruct (grok.route p k v) eqn:Hroute; intros [=<-].
    split; [done|]. apply Hnamed. by rewrite Hroute.
  - intros x. destruct (grok.route p k v) eqn:Hroute; intros [=<-].
    exists v. split; [done|]. split; [done|]. apply Hnamed. by rewrite Hroute.
Qed.

End ParseLine_metric.

(** ** Compile: the parser it leaves *)
Section Compile_parser.

Context `{Libraries}.

Implicit Types (p q : grok.Parser).

(** The two halves of [Compile]: the steps that build the grammar, and the
    four filters. *)
Local Abbreviation grammar :=
  (grok.and_then grok.new_grok
     (grok.and_then grok.add_pattern_file grok.add_custom_patterns)).

Local Abbreviation filters :=
  (grok.and_then (grok.compile_filter grok.TagKeys grok.set_tagKeys)
  (grok.and_then (grok.compile_filter grok.FieldKeysStr grok.set_fieldKeysStr)
  (grok.and_then (grok.compile_filter grok.FieldKeysInt grok.set_fieldKeysInt)
     (grok.compile_filter grok.FieldKeysFloat grok.set_fieldKeysFloat)))).

Lemma and_then_assoc (s1 s2 s3 : grok.step) p :
  grok.and_then (grok.and_then s1 s2) s3 p
  = grok.and_then s1 (grok.and_then s2 s3) p.
Proof.
  unfold grok.and_then. destruct (s1 p) as [p1 [[e|]|msg]]; reflexivity.
Qed.

Lemma and_then_ext (s1 s2 s2' : grok.step) p :
  (∀ q, s2 q = s2' q) → grok.and_then s1 s2 p = grok.and_then s1 s2' p.
Proof.
  intros Hext. unfold grok.and_then.
  destruct (s1 p) as [p1 [[e|]|msg]]; [reflexivity|apply Hext|reflexivity].
Qed.

Lemma Compile_halves p : grok.Compile p = grok.and_then grammar filters p.
Proof.
  unfold grok.Compile. rewrite and_then_assoc.
  apply and_then_ext. intros q. symmetry. apply and_then_assoc.
Qed.

(** The grammar steps write the grammar only, and what they write and
    return is read off the two custom-pattern settings. *)
Lemma add_pattern_file_uniform p gr :
  ∃ gr' r, ∀ q,
    grok.CustomPatternFile q = grok.CustomPatternFile p →
    grok.add_pattern_file (grok.set_g q (Some gr))
    = (grok.set_g q (Some gr'), Returns r).
Proof.
  unfold grok.add_pattern_file.
  destruct (decide (grok.CustomPatternFile p ≠ "")) as [Hne|Heq].
  - destruct (grok_AddPatternsFromPath gr (grok.CustomPatternFile p))
      as [gr' e] eqn:Hadd.
    exists gr', e. intros q Hq.
    cbn [grok.CustomPatternFile grok.set_g grok.g]. rewrite Hq.
    by rewrite bool_decide_eq_true_2, Hadd.
  - exists gr, None. intros q Hq.
    cbn [grok.CustomPatternFile grok.set_g grok.g]. rewrite Hq.
    by rewrite bool_decide_eq_false_2.
Qed.

Lemma add_custom_patterns_uniform p gr :
  ∃ gr' r, ∀ q,
    grok.CustomPatterns q = grok.CustomPatterns p →
    grok.add_custom_patterns (grok.set_g q (Some gr))
    = (grok.set_g q (Some gr'), r)
    ∧ ∀ x, grok.set_g (grok.set_g q (Some gr')) x = grok.set_g q x.
Proof.
  unfold grok.add_custom_patterns, grok.addCustomPatterns.
  destruct (decide (grok.CustomPatterns p ≠ "")) as [Hne|Heq].
  - destruct (grok.scan_patterns (bufio_ScanLines (grok.CustomPatterns p)) ∅)
      as [filePatterns|msg] eqn:Hscan.
    + destruct (grok_AddPatternsFromMap gr filePatterns) as [gr' e] eqn:Hmap.
      exists gr', (Returns e). intros q Hq. split; [|done].
      cbn [grok.CustomPatterns grok.set_g grok.g]. rewrite Hq.
      by rewrite bool_decide_eq_true_2, Hscan, Hmap.
    + exists gr, (Panics msg). intros q Hq. split; [|done].
      cbn [grok.CustomPatterns grok.set_g grok.g]. rewrite Hq.
      by rewrite bool_decide_eq_true_2, Hscan.
  - exists gr, (Returns None). intros q Hq. split; [|done].
    cbn [grok.CustomPatterns grok.set_g grok.g]. rewrite Hq.
    by rewrite bool_decide_eq_false_2.
Qed.

(** The grammar steps write the grammar only, and what they write and
    return is read off the two custom-pattern settings. *)
Lemma grammar_only_g p :
  ∃ y r,
    (∀ q, grok.CustomPatternFile q = grok.CustomPatternFile p →
          grok.CustomPatterns q = grok.CustomPatterns p →
          grammar q = (grok.set_g q y, r))
    ∧ (r = Returns None → is_Some y).
Proof.
  destruct grok_NewWithConfig as [e|gr] eqn:Hnew.
  { exists None, (Returns (Some e)). split; [|intros [=]].
    intros q _ _. unfold grok.and_then, grok.new_grok. by rewrite Hnew. }
  destruct (add_pattern_file_uniform p gr) as (gr1 & r1 & Hfile).
  destruct r1 as [e|].
  { exists (Some gr1), (Returns (Some e)). split; [|intros [=]].
    intros q Hq _. unfold grok.and_then, grok.new_grok. rewrite Hnew.
    by rewrite (Hfile q Hq). }
  destruct (add_custom_patterns_uniform p gr1) as (gr2 & r2 & Hcustom).
  exists (Some gr2), r2. split; [|by eexists].
  intros q Hq1 Hq2. unfold grok.and_then, grok.new_grok. rewrite Hnew.
  rewrite (Hfile q Hq1).
  by destruct (Hcustom q Hq2) as [-> _].
Qed.

Ltac filters_simpl Hcons Hnil :=
  repeat (progress (cbn; rewrite ?Hcons, ?Hnil;
                    repeat match goal with
                           | E : internal_CompileFilter _ = _ |- _ =>
                             rewrite !E
                           end)).

Ltac filters_case ks Hcons Hnil :=
  let k := fresh "k" in
  let E := fresh "E" in
  destruct ks as [|k ks]; filters_simpl Hcons Hnil;
  [|destruct (internal_CompileFilter (k :: ks)) eqn:E;
    filters_simpl Hcons Hnil; [try reflexivity|]].

(** The cases of the four filters: each key list empty or not, each
    compilation failing or not. *)
Ltac filters_cases p :=
  let Hcons := fresh "Hcons" in
  let Hnil := fresh "Hnil" in
  destruct p as [pat cp cpf tk tkm fs fsm fi fim ff ffm g0];
  unfold grok.and_then, grok.compile_filter;
  assert (∀ n, bool_decide (0 < S n)%nat = true)
    as Hcons by (intros; apply bool_decide_eq_true_2; lia);
  assert (bool_decide (0 < 0)%nat = false) as Hnil by done;
  filters_case tk Hcons Hnil; filters_case fs Hcons Hnil;
  filters_case fi Hcons Hnil; filters_case ff Hcons Hnil;
  try reflexivity.

Lemma filters_set_g p x :
  filters (grok.set_g p x) = (grok.set_g (filters p).1 x, (filters p).2).
Proof. filters_cases p. Qed.

Lemma filters_twice p : filters (filters p).1 = filters p.
Proof. filters_cases p. Qed.

Lemma filters_frame p :
  let p' := (filters p).1 in
  grok.Pattern p' = grok.Pattern p
  ∧ grok.CustomPatterns p' = grok.CustomPatterns p
  ∧ grok.CustomPatternFile p' = grok.CustomPatternFile p
  ∧ grok.TagKeys p' = grok.TagKeys p
  ∧ grok.FieldKeysStr p' = grok.FieldKeysStr p
  ∧ grok.FieldKeysInt p' = grok.FieldKeysInt p
  ∧ grok.FieldKeysFloat p' = grok.FieldKeysFloat p
  ∧ grok.g p' = grok.g p.
Proof. filters_cases p; repeat split. Qed.

Lemma filters_slots p :
  (filters p).2 = Returns None →
  let p' := (filters p).1 in
  grok.slot_after (grok.TagKeys p) (grok.tagKeys p) (grok.tagKeys p')
  ∧ grok.slot_after (grok.FieldKeysStr p) (grok.fieldKeysStr p)
                    (grok.fieldKeysStr p')
  ∧ grok.slot_after (grok.FieldKeysInt p) (grok.fieldKeysInt p)
                    (grok.fieldKeysInt p')
  ∧ grok.slot_after (grok.FieldKeysFloat p) (grok.fieldKeysFloat p)
                    (grok.fieldKeysFloat p').
Proof.
  filters_cases p; intros Hr; try discriminate Hr;
    repeat split; try reflexivity; by eexists.
Qed.

(** [Compile], by its halves. *)
Lemma Compile_by_halves p :
  ∃ y r,
    (∀ q, grok.CustomPatternFile q = grok.CustomPatternFile p →
          grok.CustomPatterns q = grok.CustomPatterns p →
          grok.Compile q =
          match r with
          | Returns None =>
            (grok.set_g (filters q).1 y, (filters q).2)
          | _ => (grok.set_g q y, r)
          end)
    ∧ (r = Returns None → is_Some y).
Proof.
  destruct (grammar_only_g p) as (y & r & Hgrammar & Hy).
  exists y, r. split; [|done]. intros q Hq1 Hq2.
  rewrite Compile_halves. unfold grok.and_then at 1.
  rewrite (Hgrammar q Hq1 Hq2).
  destruct r as [[e|]|msg]; [done| |done].
  apply filters_set_g.
Qed.

(** X4.  [Compile] leaves the configuration as it was, however it ends:
    the pattern, the custom patterns and their file, and the four key
    lists. *)
Theorem Compile_keeps_configuration p :
  let p' := (grok.Compile p).1 in
  grok.Pattern p' = grok.Pattern p
  ∧ grok.CustomPatterns p' = grok.CustomPatterns p
  ∧ grok.CustomPatternFile p' = grok.CustomPatternFile p
  ∧ grok.TagKeys p' = grok.TagKeys p
  ∧ grok.FieldKeysStr p' = grok.FieldKeysStr p
  ∧ grok.FieldKeysInt p' = grok.FieldKeysInt p
  ∧ grok.FieldKeysFloat p' = grok.FieldKeysFloat p.
Proof.
  intros p'. subst p'.
  destruct (Compile_by_halves p) as (y & r & Hc & _).
  rewrite (Hc p eq_refl eq_refl).
  destruct (filters_frame p) as (? & ? & ? & ? & ? & ? & ? & _).
  destruct r as [[e|]|msg]; cbn [fst]; by repeat split.
Qed.

(** X5.  When [Compile] returns nil the parser has a grammar, and each of
    the four matchers is the compiled key list when the list is not
    empty and is left as it was when the list is empty. *)
Theorem Compile_nil_sets_matchers p :
  (grok.Compile p).2 = Returns None →
  let p' := (grok.Compile p).1 in
  is_Some (grok.g p')
  ∧ grok.slot_after (grok.TagKeys p) (grok.tagKeys p) (grok.tagKeys p')
  ∧ grok.slot_after (grok.FieldKeysStr p) (grok.fieldKeysStr p)
                    (grok.fieldKeysStr p')
  ∧ grok.slot_after (grok.FieldKeysInt p) (grok.fieldKeysInt p)
                    (grok.fieldKeysInt p')
  ∧ grok.slot_after (grok.FieldKeysFloat p) (grok.fieldKeysFloat p)
                    (grok.fieldKeysFloat p').
Proof.
  destruct (Compile_by_halves p) as (y & r & Hc & Hy).
  rewrite (Hc p eq_refl eq_refl).
  destruct r as [[e|]|msg]; cbn [fst snd]; [intros [=]| |intros [=]].
  intros Hnil. split; [by apply Hy|]. by apply filters_slots.
Qed.

(** Compiling the parser [Compile] left behind does what the first call
    did. *)
Lemma Compile_again p : grok.Compile (grok.Compile p).1 = grok.Compile p.
Proof.
  destruct (Compile_by_halves p) as (y & r & Hc & _).
  pose proof (Hc p eq_refl eq_refl) as Hp.
  destruct (filters_frame p) as (_ & Hcp & Hcpf & _).
  destruct r as [[e|]|msg].
  - rewrite Hp. cbn [fst]. by rewrite (Hc (grok.set_g p y)).
  - rewrite Hp. cbn [fst].
    rewrite (Hc (grok.set_g (filters p).1 y)) by done.
    rewrite filters_set_g, filters_twice. done.
  - rewrite Hp. cbn [fst]. by rewrite (Hc (grok.set_g p y)).
Qed.

(** X6.  [Compile] can be called again: on the parser a first call left
    behind, however that call ended, a second call leaves the same parser
    and ends the same way. *)
Theorem Compile_idempotent p :
  grok.Compile (grok.Compile p).1 = grok.Compile p.
Proof. apply Compile_again. Qed.

End Compile_parser.

(** ** addCustomPatterns: what it records *)
Section addCustomPatterns_records.

Context `{Libraries}.

Implicit Types (text name fragment : string) (lines : list string).
Implicit Types (filePatterns m : gmap string string).

(** One turn of the loop, by the reading of its line. *)
Lemma scan_patterns_read_line text lines filePatterns :
  grok.scan_patterns (text :: lines) filePatterns =
  match grok.read_line text with
  | grok.Passed => grok.scan_patterns lines filePatterns
  | grok.Defines name fragment =>
    grok.scan_patterns lines (<[name := fragment]> filePatterns)
  | grok.NoFragment => Panics index_out_of_range
  end.
Proof.
  rewrite scan_patterns_line. unfold grok.read_line.
  destruct (strings_TrimSpace text) as [|c rest]; [done|].
  destruct (byte_is c 35); [done|].
  by destruct (cut_at_space (String c rest)) as [[name fragment]|].
Qed.

(** The loop returns when no line lacks a fragment. *)
Lemma scan_patterns_returns lines : ∀ filePatterns,
  (∀ text, text ∈ lines → grok.read_line text ≠ grok.NoFragment) →
  ∃ m, grok.scan_patterns lines filePatterns = Returns m.
Proof.
  induction lines as [|text lines IH]; intros filePatterns Hall.
  - by eexists.
  - rewrite scan_patterns_read_line.
    assert (∀ t, t ∈ lines → grok.read_line t ≠ grok.NoFragment) as Hrest
      by (intros t Ht; apply Hall; by right).
    destruct (grok.read_line text) eqn:Hread; [by apply IH|by apply IH|].
    destruct (Hall text); [by left|done].
Qed.

(** The loop panics when a line lacks a fragment. *)
Lemma scan_patterns_panics lines : ∀ filePatterns text,
  text ∈ lines → grok.read_line text = grok.NoFragment →
  grok.scan_patterns lines filePatterns = Panics index_out_of_range.
Proof.
  induction lines as [|first lines IH]; intros filePatterns text Hin Hread.
  - by apply elem_of_nil in Hin.
  - rewrite scan_patterns_read_line.
    apply elem_of_cons in Hin as [<-|Hin]; [by rewrite Hread|].
    destruct (grok.read_line first); by eauto.
Qed.

(** X7.  With a grammar in place, [addCustomPatterns] returns, with
    whatever error [AddPatternsFromMap] gives, exactly when every line
    that is neither blank nor a comment has a space after its name; when
    one has none it panics. *)
Theorem addCustomPatterns_returns_iff (p : grok.Parser) gr :
  grok.g p = Some gr →
  (∃ e, (grok.addCustomPatterns p).2 = Returns e)
  ↔ (∀ text, text ∈ bufio_ScanLines (grok.CustomPatterns p) →
             grok.read_line text ≠ grok.NoFragment).
Proof.
  intros Hg. unfold grok.addCustomPatterns. split.
  - intros [e He] text Hin Hread.
    rewrite (scan_patterns_panics _ ∅ text Hin Hread) in He. done.
  - intros Hall.
    destruct (scan_patterns_returns _ ∅ Hall) as [m ->]. rewrite Hg.
    destruct (grok_AddPatternsFromMap gr m) as [gr' e]. by eexists.
Qed.

Lemma last_cons_default {A} (x : A) (l : list A) :
  last (x :: l) = Some (default x (last l)).
Proof.
  revert x. induction l as [|y l IH]; intros x; [done|].
  by rewrite last_cons_cons, IH.
Qed.

(** The map after the loop, name by name. *)
Lemma scan_patterns_lookup lines name : ∀ filePatterns m,
  grok.scan_patterns lines filePatterns = Returns m →
  m !! name =
  match last (grok.fragments_of name lines) with
  | Some fragment => Some fragment
  | None => filePatterns !! name
  end.
Proof.
  induction lines as [|text lines IH]; intros filePatterns m Hscan.
  - by injection Hscan as <-.
  - rewrite scan_patterns_read_line in Hscan.
    unfold grok.fragments_of in *. cbn [omap list_omap].
    destruct (grok.read_line text) as [|n fragment|] eqn:Hread;
      [by apply IH| |done].
    rewrite (IH _ _ Hscan). destruct (decide (n = name)) as [->|Hne].
    + rewrite lookup_insert_eq, last_cons_default.
      by destruct (last _).
    + by rewrite lookup_insert_ne.
Qed.

(** X8.  When the loop over the lines returns, the map it hands to
    [AddPatternsFromMap] gives a name the fragment of the last line that
    defines it, and holds no name that no line defines. *)
Theorem scan_patterns_last_definition_wins (custom : string) m name :
  grok.scan_patterns (bufio_ScanLines custom) ∅ = Returns m →
  m !! name = last (grok.fragments_of name (bufio_ScanLines custom)).
Proof.
  intros Hscan. rewrite (scan_patterns_lookup _ name _ _ Hscan).
  by destruct (last _).
Qed.

End addCustomPatterns_records.

(** ** addCustomPatterns: the names it records *)
Section addCustomPatterns_names.

Context `{Libraries}.

Implicit Types (s text name fragment : string) (lines : list string).

Lemma rev_app_append s acc : String.rev_app s acc = String.rev s +:+ acc.
Proof.
  revert acc. induction s as [|c s IH]; intros acc; [done|].
  unfold String.rev. cbn [String.rev_app].
  by rewrite (IH (String c acc)), (IH (String c "")), append_assoc.
Qed.

Lemma rev_append s1 s2 :
  String.rev (s1 +:+ s2) = String.rev s2 +:+ String.rev s1.
Proof.
  induction s1 as [|c s1 IH].
  - by rewrite append_empty_r.
  - rewrite append_cons. unfold String.rev at 1 3. cbn [String.rev_app].
    by rewrite !rev_app_append, IH, append_assoc.
Qed.

Lemma rev_rev s : String.rev (String.rev s) = s.
Proof.
  induction s as [|c s IH]; [done|].
  unfold String.rev at 2. cbn [String.rev_app].
  by rewrite rev_app_append, rev_append, IH.
Qed.

(** What [trim_front] leaves does not start with a one-byte space. *)
Lemma trim_front_head backwards n : ∀ s c r,
  (String.length s ≤ n)%nat →
  trim_front backwards s = String c r → space1 c = false.
Proof.
  induction n as [|n IH]; intros s c r Hlen Htrim.
  - destruct s; [done|simpl in Hlen; lia].
  - destruct s as [|a r1]; [done|]. cbn [trim_front] in Htrim.
    simpl in Hlen. destruct (space1 a) eqn:Ha.
    { eapply IH; [|done]. lia. }
    destruct r1 as [|b r2]; [by injection Htrim as <- <-|].
    simpl in Hlen.
    destruct (if backwards then space2 b a else space2 a b).
    { eapply IH; [|done]. lia. }
    destruct r2 as [|d r3]; [by injection Htrim as <- <-|].
    simpl in Hlen.
    destruct (if backwards then space3 d b a else space3 a b d).
    { eapply IH; [|done]. lia. }
    by injection Htrim as <- <-.
Qed.

(** What [trim_front] leaves is the end of the string. *)
Lemma trim_front_suffix backwards n : ∀ s,
  (String.length s ≤ n)%nat → ∃ pre, s = pre +:+ trim_front backwards s.
Proof.
  induction n as [|n IH]; intros s Hlen.
  - destruct s; [by exists ""|simpl in Hlen; lia].
  - destruct s as [|a r1]; [by exists ""|]. cbn [trim_front].
    simpl in Hlen. destruct (space1 a).
    { destruct (IH r1) as [pre Hpre]; [lia|].
      exists (String a pre). by rewrite append_cons, <- Hpre. }
    destruct r1 as [|b r2]; [by exists ""|].
    simpl in Hlen.
    destruct (if backwards then space2 b a else space2 a b).
    { destruct (IH r2) as [pre Hpre]; [lia|].
      exists (String a (String b pre)). by rewrite !append_cons, <- Hpre. }
    destruct r2 as [|d r3]; [by exists ""|].
    simpl in Hlen.
    destruct (if backwards then space3 d b a else space3 a b d).
    { destruct (IH r3) as [pre Hpre]; [lia|].
      exists (String a (String b (String d pre))).
      by rewrite !append_cons, <- Hpre. }
    by exists "".
Qed.

(** A trimmed string does not start with a one-byte space. *)
Lemma TrimSpace_head s c r :
  strings_TrimSpace s = String c r → space1 c = false.
Proof.
  unfold strings_TrimSpace. set (t := trim_front false s). intros Htrim.
  destruct (trim_front_suffix true (String.length (String.rev t))
              (String.rev t)) as [pre Hpre]; [done|].
  apply (f_equal String.rev) in Hpre.
  rewrite rev_rev, rev_append, Htrim, append_cons in Hpre.
  by eapply (trim_front_head false (String.length s) s).
Qed.

(** What [trim_front] leaves, read forwards, starts with no white-space
    rune. *)
Lemma trim_front_no_space n : ∀ s,
  (String.length s ≤ n)%nat → starts_with_space (trim_front false s) = false.
Proof.
  induction n as [|n IH]; intros s Hlen.
  - destruct s; [done|simpl in Hlen; lia].
  - destruct s as [|a r1]; [done|]. cbn [trim_front].
    simpl in Hlen. destruct (space1 a) eqn:Ha.
    { apply IH. lia. }
    destruct r1 as [|b r2]; [by cbn; rewrite Ha|].
    simpl in Hlen. destruct (space2 a b) eqn:Hb.
    { apply IH. lia. }
    destruct r2 as [|d r3]; [by cbn; rewrite Ha, Hb|].
    simpl in Hlen. destruct (space3 a b d) eqn:Hd.
    { apply IH. lia. }
    cbn. by rewrite Ha, Hb, Hd.
Qed.

(** The start of a string that starts with no white-space rune starts with
    none. *)
Lemma starts_with_space_prefix s1 s2 :
  starts_with_space (s1 +:+ s2) = false → starts_with_space s1 = false.
Proof.
  destruct s1 as [|a [|b [|c s1]]]; [done| | |by rewrite !append_cons].
  - rewrite append_cons. cbn. intros [Ha _]%orb_false_iff.
    by rewrite Ha.
  - rewrite !append_cons. cbn. intros [Ha Hrest]%orb_false_iff.
    apply orb_false_iff in Hrest as [Hb _]. by rewrite Ha, Hb.
Qed.

(** A trimmed string starts with no white-space rune. *)
Lemma TrimSpace_no_space s : starts_with_space (strings_TrimSpace s) = false.
Proof.
  unfold strings_TrimSpace. set (t := trim_front false s).
  destruct (trim_front_suffix true (String.length (String.rev t))
              (String.rev t)) as [pre Hpre]; [done|].
  apply (f_equal String.rev) in Hpre.
  rewrite rev_rev, rev_append in Hpre.
  apply (starts_with_space_prefix _ (String.rev pre)).
  rewrite <- Hpre. by apply (trim_front_no_space (String.length s)).
Qed.

(** X9.  A line that defines a name: the name is the text of the trimmed
    line before its first space and the fragment the text after it; the
    name is not empty, starts with no white-space rune and not with [#],
    and has no space in it. *)
Theorem read_line_name text name fragment :
  grok.read_line text = grok.Defines name fragment →
  strings_TrimSpace text = name +:+ " " +:+ fragment
  ∧ (∃ c r, name = String c r ∧ byte_is c 35 = false)
  ∧ starts_with_space name = false
  ∧ cut_at_space name = None.
Proof.
  unfold grok.read_line.
  destruct (strings_TrimSpace text) as [|c rest] eqn:Htrim; [done|].
  destruct (byte_is c 35) eqn:Hhash; [done|].
  destruct (cut_at_space (String c rest)) as [[n f]|] eqn:Hcut; [|done].
  intros [= -> ->].
  destruct (SplitN_space _ _ _ Hcut) as (_ & Hline & Hname).
  split; [done|].
  pose proof (TrimSpace_no_space text) as Hnospace.
  rewrite Htrim, Hline in Hnospace.
  apply starts_with_space_prefix in Hnospace.
  split; [|done].
  pose proof (TrimSpace_head _ _ _ Htrim) as Hspace.
  assert (byte_is c 32 = false) as Hc.
  { unfold space1 in Hspace. by apply orb_false_iff in Hspace as [_ ?]. }
  simpl in Hcut. rewrite Hc in Hcut.
  destruct (cut_at_space rest) as [[b r]|]; [|done].
  injection Hcut as <- <-. by exists c, b.
Qed.

End addCustomPatterns_names.

(** ** Start and Stop: the sessions *)
Section Start_sessions.

Context `{Libraries}.

Implicit Types (l : logparser.LogParserPlugin) (st : logparser.Tailing).
Implicit Types (files filepaths : list string) (seek : SeekInfo).
Implicit Types (tr : list logparser.event) (ts : list Tail).

Lemma spawned_app tr1 tr2 :
  logparser.spawned (tr1 ++ tr2)
  = logparser.spawned tr1 ++ logparser.spawned tr2.
Proof. apply omap_app. Qed.

Lemma configs_app tr1 tr2 :
  logparser.configs (tr1 ++ tr2)
  = logparser.configs tr1 ++ logparser.configs tr2.
Proof. apply omap_app. Qed.

(** The receivers the inner loop starts are those of the sessions that
    open, and its calls all carry the configuration it was given. *)
Lemma spawned_calls config files :
  logparser.spawned (logparser.calls config files)
  = logparser.opened config files.
Proof.
  unfold logparser.spawned, logparser.calls, logparser.opened.
  induction files as [|file files IH]; [done|].
  cbn [flat_map omap list_omap app].
  destruct (tail_TailFile file config); cbn [omap list_omap app];
    by rewrite IH.
Qed.

Lemma configs_calls config files :
  Forall (λ c, c = config) (logparser.configs (logparser.calls config files)).
Proof.
  unfold logparser.configs, logparser.calls.
  induction files as [|file files IH]; [by constructor|].
  cbn [flat_map omap list_omap app].
  destruct (tail_TailFile file config); cbn [omap list_omap app];
    by constructor.
Qed.

(** What the loop over the patterns keeps, however it ends: it only adds
    to the trace; the sessions added to the plugin are those whose
    receiver it started; every call carries the one configuration. *)
Lemma glob_files_sessions seek filepaths : ∀ st,
  ∃ tr,
    logparser.trace (logparser.glob_files seek filepaths st).1
    = logparser.trace st ++ tr
    ∧ logparser.plugin (logparser.glob_files seek filepaths st).1
      = foldl logparser.add_tailer (logparser.plugin st)
              (logparser.spawned tr)
    ∧ Forall (λ c, c = logparser.tail_config seek) (logparser.configs tr).
Proof.
  induction filepaths as [|filepath filepaths IH]; intros st.
  - exists []. cbn. by rewrite app_nil_r.
  - cbn [logparser.glob_files].
    destruct (globpath_Compile filepath) as [e|gp].
    + exists [logparser.LogGlobFailed filepath e]. cbn. by split.
    + destruct (IH (logparser.tail_files seek (globpath_Match gp) st))
        as (tr & Htr & Hplugin & Hconfigs).
      exists (logparser.calls (logparser.tail_config seek) (globpath_Match gp)
              ++ tr).
      rewrite Htr, Hplugin, tail_files_spec. cbn zeta.
      cbn [logparser.plugin logparser.trace].
      rewrite spawned_app, spawned_calls, foldl_app, configs_app, app_assoc.
      split; [done|]. split; [done|].
      apply Forall_app. split; [apply configs_calls|done].
Qed.

(** The plugin and the trace [Start] leaves when the parser compiles are
    those of the loop over the patterns. *)
Lemma Start_compiled_loop l a p :
  logparser.GrokParser l = Some p →
  (grok.Compile p).2 = Returns None →
  let l3 := logparser.set_GrokParser
              (logparser.set_run l (Some a) [logparser.GrokParserPtr])
              (Some (grok.Compile p).1) in
  let st' := (logparser.glob_files (logparser.start_seek l3)
                (logparser.Files l3)
                {| logparser.plugin := l3; logparser.errS := "";
                   logparser.trace := [] |}).1 in
  (logparser.Start l a).1.1 = logparser.plugin st'
  ∧ (logparser.Start l a).1.2 = logparser.trace st'.
Proof.
  intros Hp Hcompiled l3 st'. subst st'.
  rewrite (Start_with_parser l a p Hp), Hcompiled. cbn zeta. fold l3.
  destruct (logparser.glob_files _ _ _) as [st' r].
  destruct r as [[]|msg]; [case_bool_decide|]; split; reflexivity.
Qed.

(** [Start], however it ends. *)
Lemma Start_sessions l a :
  let l' := (logparser.Start l a).1.1 in
  let tr := (logparser.Start l a).1.2 in
  l' = foldl logparser.add_tailer
         (logparser.set_GrokParser
            (logparser.set_run l (Some a) (logparser.find_parsers l))
            (logparser.GrokParser l'))
         (logparser.spawned tr)
  ∧ Forall (λ c, c = logparser.tail_config (logparser.start_seek l))
           (logparser.configs tr).
Proof.
  destruct (logparser.GrokParser l) as [p|] eqn:Hp.
  - rewrite find_parsers_GrokParser, Hp.
    destruct ((grok.Compile p).2) as [[e|]|msg] eqn:Hcompiled.
    + rewrite (Start_with_parser l a p Hp), Hcompiled.
      split; [reflexivity|by constructor].
    + destruct (Start_compiled_loop l a p Hp Hcompiled) as [-> ->].
      match goal with
      | |- context [logparser.glob_files ?seek ?fps ?st] =>
        destruct (glob_files_sessions seek fps st)
          as (tr & Htr & Hplugin & Hconfigs)
      end.
      cbn [logparser.plugin logparser.trace] in Htr, Hplugin.
      rewrite app_nil_l in Htr. rewrite Htr, Hplugin.
      split; [|done]. by rewrite !foldl_add_tailer.
    + rewrite (Start_with_parser l a p Hp), Hcompiled.
      split; [reflexivity|by constructor].
  - assert (logparser.Start l a
            = (logparser.set_run l (Some a) [], [],
               Returns (Some (fmt_Errorf logparser.no_parsers_defined))))
      as ->.
    { unfold logparser.Start. rewrite find_parsers_GrokParser.
      cbn [logparser.set_run logparser.GrokParser]. by rewrite Hp. }
    rewrite find_parsers_GrokParser, Hp. cbn. split; [|by constructor].
    destruct l. cbn in *. by subst.
Qed.

End Start_sessions.

(** ** Start and Stop: what they keep *)
Section Start_Stop_properties.

Context `{Libraries}.

Implicit Types (l : logparser.LogParserPlugin).
Implicit Types (ts : list Tail).

Lemma session_calls_stops ts :
  logparser.session_calls
    (flat_map (λ t, match tail_Stop t with
                    | Some _ => [logparser.CallStop t;
                                 logparser.LogStopFailed t;
                                 logparser.CallCleanup t]
                    | None => [logparser.CallStop t; logparser.CallCleanup t]
                    end) ts
     ++ [logparser.WgWait])
  = flat_map (λ t, [logparser.CallStop t; logparser.CallCleanup t]) ts.
Proof.
  unfold logparser.session_calls.
  induction ts as [|t ts IH]; [done|].
  cbn [flat_map]. rewrite <- app_assoc, filter_app, IH.
  by destruct (tail_Stop t).
Qed.

(** X10.  [Stop] stops and then cleans up every session of [l.tailers],
    once each and in order, whether or not stopping one fails, and waits
    for the receivers last. *)
Theorem Stop_every_session l :
  logparser.session_calls (logparser.Stop l)
  = flat_map (λ t, [logparser.CallStop t; logparser.CallCleanup t])
             (logparser.tailers l)
  ∧ last (logparser.Stop l) = Some logparser.WgWait.
Proof.
  unfold logparser.Stop. split; [apply session_calls_stops|].
  by rewrite last_snoc.
Qed.

(** X11.  However [Start] ends, it only adds to [l.tailers], the sessions
    it adds are those whose receiver it started, in that order, and the
    wait group counts them; the files and [FromBeginning] are as before,
    the accumulator is the one given, and [l.parsers] is what the loop
    over the fields found, not what it held before. *)
Theorem Start_adds_sessions l a :
  let l' := (logparser.Start l a).1.1 in
  let started := logparser.spawned (logparser.Start l a).1.2 in
  logparser.tailers l' = logparser.tailers l ++ started
  ∧ logparser.wg l' = (logparser.wg l + Z.of_nat (length started))%Z
  ∧ logparser.Files l' = logparser.Files l
  ∧ logparser.FromBeginning l' = logparser.FromBeginning l
  ∧ logparser.acc l' = Some a
  ∧ logparser.parsers l' = logparser.find_parsers l.
Proof.
  intros l' started. subst l' started.
  destruct (Start_sessions l a) as [Hl' _]. cbn zeta in Hl'.
  rewrite foldl_add_tailer in Hl'. rewrite Hl' at 1 2 3 4 5 6.
  by cbn.
Qed.

(** X12.  Every [tail.TailFile] call of [Start] asks to follow the file and
    to reopen it, from its end unless [FromBeginning] is set and from its
    start when it is. *)
Theorem Start_seek_of_every_call l a :
  Forall (λ c, ReOpen c = true ∧ Follow c = true
               ∧ Offset (Location c) = 0%Z
               ∧ Whence (Location c)
                 = if logparser.FromBeginning l then 0%Z else 2%Z)
         (logparser.configs (logparser.Start l a).1.2).
Proof.
  destruct (Start_sessions l a) as [_ Hconfigs]. cbn zeta in Hconfigs.
  eapply Forall_impl; [exact Hconfigs|]. intros c ->.
  unfold logparser.tail_config, logparser.start_seek.
  by destruct (logparser.FromBeginning l).
Qed.

(** X13.  [Stop] after [Start], however [Start] ended: every session the
    plugin held before and every session whose receiver [Start] started is
    stopped and cleaned up, once and in order. *)
Theorem Stop_after_Start l a :
  logparser.session_calls (logparser.Stop (logparser.Start l a).1.1)
  = flat_map (λ t, [logparser.CallStop t; logparser.CallCleanup t])
             (logparser.tailers l
              ++ logparser.spawned (logparser.Start l a).1.2).
Proof.
  destruct (Start_sessions l a) as [Hl' _]. cbn zeta in Hl'.
  rewrite foldl_add_tailer in Hl'.
  unfold logparser.Stop. rewrite session_calls_stops.
  rewrite Hl' at 1. by cbn.
Qed.

(** [Start] when the parser and the patterns compile: the plugin, the
    trace and the result. *)
Lemma Start_compiled l a p :
  logparser.GrokParser l = Some p →
  (grok.Compile p).2 = Returns None →
  (∀ filepath, filepath ∈ logparser.Files l →
               ∃ gp, globpath_Compile filepath = inr gp) →
  let config := logparser.tail_config (logparser.start_seek l) in
  let files := logparser.resolve (logparser.Files l) in
  logparser.Start l a
  = (foldl logparser.add_tailer
       (logparser.set_GrokParser
          (logparser.set_run l (Some a) [logparser.GrokParserPtr])
          (Some (grok.Compile p).1))
       (logparser.opened config files),
     logparser.calls config files,
     match logparser.failures config files with
     | [] => Returns None
     | errs => Returns (Some (fmt_Errorf (logparser.join_errors errs)))
     end).
Proof.
  intros Hp Hcompiled Hglobs config files.
  rewrite (Start_with_parser l a p Hp), Hcompiled. cbn zeta.
  rewrite glob_files_compiled by done.
  rewrite tail_files_spec. cbn zeta.
  cbn [logparser.plugin logparser.errS logparser.trace].
  cbn [logparser.set_GrokParser logparser.set_run logparser.Files].
  change (logparser.start_seek _) with (logparser.start_seek l).
  fold config. fold files.
  assert (∀ s : string, "" +:+ s = s) as Hempty by done.
  rewrite Hempty, app_nil_l.
  destruct (logparser.failures config files) as [|e errs] eqn:Hfail.
  - by rewrite bool_decide_eq_false_2 by (intros Hne; by apply Hne).
  - by rewrite bool_decide_eq_true_2 by (by intros [=]%join_errors_empty).
Qed.

(** [Start_in] with the order the lists are in is [Start]. *)
Lemma glob_files_in_order seek n filepaths : ∀ st,
  logparser.glob_files_in seek (λ _ files, files) n filepaths st
  = logparser.glob_files seek filepaths st.
Proof.
  revert n. induction filepaths as [|filepath filepaths IH]; intros n st;
    [done|].
  cbn [logparser.glob_files_in logparser.glob_files].
  destruct (globpath_Compile filepath); [done|apply IH].
Qed.

Lemma Start_in_order l a :
  logparser.Start_in (λ _ files, files) l a = logparser.Start l a.
Proof.
  unfold logparser.Start_in, logparser.Start.
  case_bool_decide; [done|].
  destruct (logparser.compile_parsers _ _) as [l3 [[e|]|msg]]; [done| |done].
  by rewrite glob_files_in_order.
Qed.






(** X15.  A custom-pattern line without a fragment stops [Start] itself:
    with a grammar that can be made and no custom-pattern file, [Start]
    panics on the parser's [Compile], before any file is looked for. *)
Theorem Start_panics_on_line_without_fragment l a p gr text :
  logparser.GrokParser l = Some p →
  grok_NewWithConfig = inr gr →
  grok.CustomPatternFile p = "" →
  text ∈ bufio_ScanLines (grok.CustomPatterns p) →
  grok.read_line text = grok.NoFragment →
  (logparser.Start l a).2 = Panics index_out_of_range
  ∧ (logparser.Start l a).1.2 = []
  ∧ logparser.tailers (logparser.Start l a).1.1 = logparser.tailers l.
Proof.
  intros Hp Hnew Hfile Hin Hread.
  assert ((grok.Compile p).2 = Panics index_out_of_range) as Hpanic.
  { unfold grok.Compile, grok.and_then at 1, grok.new_grok. rewrite Hnew.
    unfold grok.and_then at 1, grok.add_pattern_file.
    cbn [grok.CustomPatternFile grok.set_g]. rewrite Hfile.
    rewrite bool_decide_eq_false_2 by (intros Hne; by apply Hne).
    unfold grok.and_then at 1, grok.add_custom_patterns.
    cbn [grok.CustomPatterns grok.set_g].
    rewrite bool_decide_eq_true_2.
    2:{ intros Hempty. rewrite Hempty in Hin. by apply elem_of_nil in Hin. }
    unfold grok.addCustomPatterns. cbn [grok.CustomPatterns grok.set_g].
    by rewrite (scan_patterns_panics _ ∅ text Hin Hread). }
  rewrite (Start_with_parser l a p Hp), Hpanic. by cbn.
Qed.

End Start_Stop_properties.

(** ** receiver *)
Section receiver_properties.

Context `{Readers}.

Implicit Types (l : logparser.LogParserPlugin) (st : logparser.Receiving).
Implicit Types (lines : list logparser.Line) (lps : list logparser.LogParser).
Implicit Types (ds : list logparser.delivery).

Lemma offer_line_no_done l filename text orders clock lps : ∀ st,
  logparser.WgDone ∉ logparser.sent st →
  logparser.WgDone
  ∉ logparser.sent
      (logparser.offer_line l filename text orders clock lps st).1.
Proof.
  induction lps as [|lp lps IH]; intros st Hst; [done|].
  cbn [logparser.offer_line]. cbn zeta.
  destruct (logparser.LogParser_ParseLine _ _ _ _ _) as [[e|m]|msg];
    [| |done].
  - apply IH. cbn [logparser.sent].
    intros [?|[=]%list_elem_of_singleton]%elem_of_app. done.
  - destruct (logparser.acc l); [|done].
    apply IH. cbn [logparser.sent].
    intros [?|[=]%list_elem_of_singleton]%elem_of_app. done.
Qed.

Lemma receive_lines_no_done l filename orders clock lines : ∀ st,
  logparser.WgDone ∉ logparser.sent st →
  logparser.WgDone
  ∉ logparser.sent
      (logparser.receive_lines l filename orders clock lines st).1.
Proof.
  induction lines as [|line lines IH]; intros st Hst; [done|].
  cbn [logparser.receive_lines].
  destruct (logparser.Err line).
  - apply IH. cbn [logparser.sent].
    intros [?|[=]%list_elem_of_singleton]%elem_of_app. done.
  - pose proof (offer_line_no_done l filename (logparser.Text line) orders
                  clock (logparser.parsers l) st Hst) as Hoffer.
    destruct (logparser.offer_line _ _ _ _ _ _ _) as [st' [[]|msg]];
      [by apply IH|done].
Qed.

(** One line offered to the parsers: when the loop returns it has added
    the answer of each parser, in their order. *)
Lemma offer_line_answers l filename text orders clock lps : ∀ st st',
  logparser.offer_line l filename text orders clock lps st = (st', Returns ()) →
  ∃ ds, logparser.sent st' = logparser.sent st ++ ds
        ∧ Forall2 (logparser.answer_of l filename text orders clock) lps ds.
Proof.
  induction lps as [|lp lps IH]; intros st st' Hoffer.
  - injection Hoffer as <-. exists []. by rewrite app_nil_r.
  - cbn [logparser.offer_line] in Hoffer. cbn zeta in Hoffer.
    destruct (logparser.LogParser_ParseLine lp l text _ _)
      as [[e|m]|msg] eqn:Hparse; [| |done].
    + destruct (IH _ _ Hoffer) as (ds & Hsent & Hds).
      cbn [logparser.sent] in Hsent.
      exists (logparser.LogMalformed filename text e :: ds).
      split; [by rewrite Hsent, <- app_assoc|].
      constructor; [|done].
      exists (logparser.calls_made st). by rewrite Hparse.
    + destruct (logparser.acc l); [|done].
      destruct (IH _ _ Hoffer) as (ds & Hsent & Hds).
      cbn [logparser.sent] in Hsent.
      eexists (_ :: ds).
      split; [by rewrite Hsent, <- app_assoc|].
      constructor; [|done].
      exists (logparser.calls_made st). by rewrite Hparse.
Qed.

Lemma receive_lines_line_by_line l filename orders clock lines : ∀ st st',
  logparser.receive_lines l filename orders clock lines st
  = (st', Returns ()) →
  ∃ blocks,
    logparser.sent st' = logparser.sent st ++ concat blocks
    ∧ Forall2 (logparser.left_for l filename orders clock) lines blocks.
Proof.
  induction lines as [|line lines IH]; intros st st' Hreceive.
  - injection Hreceive as <-. exists []. cbn. by rewrite app_nil_r.
  - cbn [logparser.receive_lines] in Hreceive.
    destruct (logparser.Err line) as [e|] eqn:Herr.
    + destruct (IH _ _ Hreceive) as (blocks & Hsent & Hblocks).
      cbn [logparser.sent] in Hsent.
      exists ([logparser.LogTailError filename (logparser.err st)] :: blocks).
      split; [by rewrite Hsent, <- app_assoc|].
      constructor; [|done].
      unfold logparser.left_for. rewrite Herr. by eexists.
    + destruct (logparser.offer_line _ _ _ _ _ _ _)
        as [st1 [[]|msg]] eqn:Hoffer; [|done].
      destruct (offer_line_answers _ _ _ _ _ _ _ _ Hoffer)
        as (ds & Hsent1 & Hds).
      destruct (IH _ _ Hreceive) as (blocks & Hsent & Hblocks).
      exists (ds :: blocks).
      split; [by rewrite Hsent, Hsent1, <- app_assoc|].
      constructor; [|done].
      unfold logparser.left_for. by rewrite Herr.
Qed.

(** X16.  When a receiver returns, what it left is, line after line in the
    order of the lines, the one log line of a failed read for a line that
    came with an error and, for a line that came without one, the answer
    of each parser of [l.parsers] to the text of that line, once each and
    in their order: the call of [AddFields] with the metric [ParseLine]
    returned for the text, or the log line of the error it returned.
    [wg.Done()] follows. *)
Theorem receiver_answers_line_by_line l tailer orders clock lines :
  (logparser.receiver l tailer orders clock lines).2 = Returns () →
  ∃ blocks,
    (logparser.receiver l tailer orders clock lines).1
    = concat blocks ++ [logparser.WgDone]
    ∧ Forall2 (logparser.left_for l (tail_Filename tailer) orders clock)
              lines blocks.
Proof.
  unfold logparser.receiver.
  destruct (logparser.receive_lines _ _ _ _ _ _) as [st r] eqn:Hreceive.
  cbn [fst snd]. intros ->.
  destruct (receive_lines_line_by_line _ _ _ _ _ _ _ Hreceive)
    as (blocks & Hsent & Hblocks).
  exists blocks. split; [|done]. by rewrite Hsent.
Qed.

(** X17.  A receiver signals the wait group once, as the last thing it
    does, whether it returns or panics. *)
Theorem receiver_done_last l tailer orders clock lines :
  ∃ ds, (logparser.receiver l tailer orders clock lines).1
        = ds ++ [logparser.WgDone]
        ∧ logparser.WgDone ∉ ds.
Proof.
  unfold logparser.receiver.
  pose proof (receive_lines_no_done l (tail_Filename tailer) orders clock
                lines {| logparser.err := None; logparser.calls_made := 0;
                         logparser.sent := [] |}) as Hno.
  destruct (logparser.receive_lines _ _ _ _ _ _) as [st r].
  exists (logparser.sent st). split; [done|].
  apply Hno. cbn. apply not_elem_of_nil.
Qed.

(** X18.  The error a line came with does not reach the log, nor does the
    text of such a line: two streams of lines that differ only there leave
    the same deliveries and end the same way. *)
Theorem receiver_blind_to_read_errors l tailer orders clock lines1 lines2 :
  Forall2 logparser.same_reading lines1 lines2 →
  logparser.receiver l tailer orders clock lines1
  = logparser.receiver l tailer orders clock lines2.
Proof.
  intros Hsame. unfold logparser.receiver.
  enough (∀ st, logparser.receive_lines l (tail_Filename tailer) orders clock
                  lines1 st
                = logparser.receive_lines l (tail_Filename tailer) orders
                    clock lines2 st) as -> by done.
  induction Hsame as [|line1 line2 lines1 lines2 Hline _ IH]; intros st;
    [done|].
  cbn [logparser.receive_lines]. unfold logparser.same_reading in Hline.
  destruct (logparser.Err line1), (logparser.Err line2); try done.
  rewrite Hline.
  by destruct (logparser.offer_line _ _ _ _ _ _ _) as [st' [[]|msg]].
Qed.

(** X20.  A receiver that is given nothing but lines that came with an
    error prints nil for each of them, not the error the line came with:
    the log line prints the variable [err], which no [ParseLine] call has
    set. *)
Theorem receiver_logs_nil_for_read_errors l tailer orders clock lines :
  Forall (λ line, logparser.read_ok line = false) lines →
  logparser.receiver l tailer orders clock lines
  = (replicate (length lines)
               (logparser.LogTailError (tail_Filename tailer) None)
     ++ [logparser.WgDone],
     Returns ()).
Proof.
  intros Hlines. unfold logparser.receiver.
  enough (∀ ds,
    logparser.receive_lines l (tail_Filename tailer) orders clock lines
      {| logparser.err := None; logparser.calls_made := 0;
         logparser.sent := ds |}
    = ({| logparser.err := None; logparser.calls_made := 0;
          logparser.sent :=
            ds ++ replicate (length lines)
                    (logparser.LogTailError (tail_Filename tailer) None) |},
       Returns ())) as Hloop by (by rewrite (Hloop [])).
  induction Hlines as [|line lines Hline _ IH]; intros ds.
  - cbn. by rewrite app_nil_r.
  - cbn [logparser.receive_lines]. unfold logparser.read_ok in Hline.
    destruct (logparser.Err line); [|done].
    cbn [logparser.err logparser.calls_made logparser.sent].
    rewrite IH. cbn [length replicate]. by rewrite <- app_assoc.
Qed.

End receiver_properties.

(** ** Start, then a receiver *)
Section receiver_after_Start_properties.

Context `{Readers}.

Implicit Types (l : logparser.LogParserPlugin) (st : logparser.Receiving).

(** When [Compile] returns nil the parser has a grammar. *)
Lemma Compile_nil_grammar (p : grok.Parser) :
  (grok.Compile p).2 = Returns None → is_Some (grok.g (grok.Compile p).1).
Proof.
  destruct (Compile_by_halves p) as (y & r & Hc & Hy).
  rewrite (Hc p eq_refl eq_refl).
  destruct r as [[e|]|msg]; cbn [fst snd]; [intros [=]| |intros [=]].
  intros _. by apply Hy.
Qed.

(** With a grammar and an accumulator, offering a line to the grok parser
    returns. *)
Lemma offer_line_returns l p gr filename text orders clock lps : ∀ st,
  logparser.GrokParser l = Some p → grok.g p = Some gr →
  is_Some (logparser.acc l) →
  (logparser.offer_line l filename text orders clock lps st).2 = Returns ().
Proof.
  intros st Hp Hg [a Ha]. revert st.
  induction lps as [|[] lps IH]; intros st; [done|].
  cbn [logparser.offer_line]. cbn zeta.
  unfold logparser.LogParser_ParseLine, grok.ParseLine. rewrite Hp, Hg, Ha.
  destruct (grok_Parse gr _ text) as [e|values]; [apply IH|].
  destruct (telegraf_NewMetric _ _ _ _); apply IH.
Qed.

Lemma receive_lines_returns l p gr filename orders clock lines : ∀ st,
  logparser.GrokParser l = Some p → grok.g p = Some gr →
  is_Some (logparser.acc l) →
  (logparser.receive_lines l filename orders clock lines st).2 = Returns ().
Proof.
  intros st Hp Hg Ha. revert st.
  induction lines as [|line lines IH]; intros st; [done|].
  cbn [logparser.receive_lines].
  destruct (logparser.Err line); [apply IH|].
  pose proof (offer_line_returns l p gr filename (logparser.Text line) orders
                clock (logparser.parsers l) st Hp Hg Ha) as Hoffer.
  destruct (logparser.offer_line _ _ _ _ _ _ _) as [st' r].
  cbn [snd] in Hoffer. subst r. apply IH.
Qed.

(** X19.  A receiver of a plugin [Start] left with a parser that compiled
    does not panic, whatever lines it is given and however [Start] itself
    ended: it has a grammar to parse with and an accumulator to call. *)
Theorem receiver_after_Start_returns l a p tailer orders clock lines :
  logparser.GrokParser l = Some p →
  (grok.Compile p).2 = Returns None →
  (logparser.receiver (logparser.Start l a).1.1 tailer orders clock lines).2
  = Returns ().
Proof.
  intros Hp Hcompiled.
  destruct (Compile_nil_grammar p Hcompiled) as [gr Hg].
  destruct (Start_compiled_loop l a p Hp Hcompiled) as [Hl' _].
  cbn zeta in Hl'.
  match type of Hl' with
  | context [logparser.glob_files ?seek ?fps ?st] =>
    destruct (glob_files_sessions seek fps st) as (tr & _ & Hplugin & _)
  end.
  rewrite Hplugin, foldl_add_tailer in Hl'. cbn in Hl'.
  unfold logparser.receiver.
  pose proof (receive_lines_returns (logparser.Start l a).1.1
                (grok.Compile p).1 gr (tail_Filename tailer) orders clock
                lines {| logparser.err := None; logparser.calls_made := 0;
                         logparser.sent := [] |}) as Hreturns.
  destruct (logparser.receive_lines _ _ _ _ _ _) as [st r].
  cbn [snd] in *. apply Hreturns; [by rewrite Hl'|done|by rewrite Hl'].
Qed.

End receiver_after_Start_properties.

(** ** The further properties at work in the small world *)
Section further_examples.

Import testbed.

Lemma ParseLine_metric_of_captures_witness :
  grok.ParseLine response_and_bytes "response=200 bytes=612" map_to_list 7%Z
  = Returns (inr {| name := "grok"; tags := ∅;
                    fields := {["response" := VString "200"]};
                    time := 7 |}).
Proof.
  rewrite (ParseLine_metric_of_captures response_and_bytes ∅
             "response=200 bytes=612"
             (list_to_map [("response", "200"); ("bytes", "612")])
             map_to_list 7%Z eq_refl eq_refl
             (range_order_map_to_list _)).
  vm_compute. reflexivity.
Defined.

Lemma range_values_tags_fields_apart_witness :
  let m := grok.range_values host_tagged (map_to_list host_captures) in
  ¬ (is_Some (grok.tags m !! "host") ∧ is_Some (grok.fields m !! "host"))
  ∧ (is_Some (grok.tags m !! "host") ∨ is_Some (grok.fields m !! "host") →
     is_Some (host_captures !! "host")).
Proof.
  apply (range_values_tags_fields_apart host_tagged host_captures
           (map_to_list host_captures) "host"
           (range_order_map_to_list _)).
Defined.

Lemma range_values_unconverted_witness :
  let m := grok.range_values response_and_bytes
             (map_to_list (list_to_map [("response", "200");
                                        ("bytes", "612")])) in
  grok.fields m !! "response" = Some (VString "200")
  ∧ ∃ v, VString "200" = VString v
         ∧ (list_to_map [("response", "200"); ("bytes", "612")]
            : gmap string string) !! "response" = Some v
         ∧ "response" ≠ "" ∧ v ≠ "".
Proof.
  intros m. split; [reflexivity|].
  apply (range_values_unconverted response_and_bytes
           (list_to_map [("response", "200"); ("bytes", "612")])
           (map_to_list (list_to_map [("response", "200");
                                      ("bytes", "612")]))
           "response" (range_order_map_to_list _)).
  reflexivity.
Defined.

Lemma Compile_nil_sets_matchers_witness :
  (grok.Compile (configured "%{PAIRS}" "" ["host"] ["*"] [] [])).2
  = Returns None
  ∧ is_Some (grok.g host_tagged)
  ∧ grok.slot_after ["host"] None (grok.tagKeys host_tagged)
  ∧ grok.slot_after ["*"] None (grok.fieldKeysStr host_tagged)
  ∧ grok.slot_after [] None (grok.fieldKeysInt host_tagged)
  ∧ grok.slot_after [] None (grok.fieldKeysFloat host_tagged).
Proof.
  split; [reflexivity|].
  apply (Compile_nil_sets_matchers
           (configured "%{PAIRS}" "" ["host"] ["*"] [] []) eq_refl).
Defined.

Lemma addCustomPatterns_returns_iff_witness :
  (∃ e, (grok.addCustomPatterns redefining).2 = Returns e)
  ↔ (∀ text, text ∈ bufio_ScanLines redefined_patterns →
             grok.read_line text ≠ grok.NoFragment).
Proof. apply (addCustomPatterns_returns_iff redefining ∅ eq_refl). Defined.

Lemma scan_patterns_last_definition_wins_witness :
  grok.scan_patterns (bufio_ScanLines redefined_patterns) ∅
  = Returns {["NGUSER" := "%{NGUSERNAME} x"]}
  ∧ ({["NGUSER" := "%{NGUSERNAME} x"]} : gmap string string) !! "NGUSER"
    = last (grok.fragments_of "NGUSER" (bufio_ScanLines redefined_patterns)).
Proof.
  split; [reflexivity|].
  apply (scan_patterns_last_definition_wins redefined_patterns). reflexivity.
Defined.

Lemma read_line_name_witness :
  grok.read_line "  NGUSER %{NGUSERNAME} x " = grok.Defines "NGUSER"
                                                          "%{NGUSERNAME} x"
  ∧ strings_TrimSpace "  NGUSER %{NGUSERNAME} x "
    = "NGUSER" +:+ " " +:+ "%{NGUSERNAME} x"
  ∧ (∃ c r, "NGUSER" = String c r ∧ byte_is c 35 = false)
  ∧ starts_with_space "NGUSER" = false
  ∧ cut_at_space "NGUSER" = None.
Proof.
  split; [reflexivity|].
  apply (read_line_name "  NGUSER %{NGUSERNAME} x " "NGUSER"
           "%{NGUSERNAME} x" eq_refl).
Defined.




Lemma Start_panics_on_line_without_fragment_witness :
  grok.read_line "FOO" = grok.NoFragment
  ∧ (logparser.Start nameless_plugin ()).2 = Panics index_out_of_range
  ∧ (logparser.Start nameless_plugin ()).1.2 = []
  ∧ logparser.tailers (logparser.Start nameless_plugin ()).1.1 = [].
Proof.
  split; [reflexivity|].
  apply (Start_panics_on_line_without_fragment nameless_plugin () nameless
           ∅ "FOO" eq_refl eq_refl eq_refl);
    [by apply list_elem_of_singleton|reflexivity].
Defined.

Lemma receiver_answers_line_by_line_witness :
  (logparser.receiver started "/var/log/a.log" orders clock read_lines).2
  = Returns ()
  ∧ ∃ blocks,
      (logparser.receiver started "/var/log/a.log" orders clock read_lines).1
      = concat blocks ++ [logparser.WgDone]
      ∧ Forall2 (logparser.left_for started "/var/log/a.log" orders clock)
                read_lines blocks.
Proof.
  split; [reflexivity|].
  exact (receiver_answers_line_by_line started "/var/log/a.log" orders clock
           read_lines eq_refl).
Defined.

(** The three blocks of that run. *)
Example receiver_read_lines :
  (logparser.receiver started "/var/log/a.log" orders clock read_lines).1
  = concat
      [[logparser.CallAddFields "grok"
          {["host" := VString "web1"; "verb" := VString "GET"]} ∅ 0%Z];
       [logparser.LogTailError "/var/log/a.log" None];
       [logparser.LogMalformed "/var/log/a.log" "garbage" "no match"]]
    ++ [logparser.WgDone].
Proof. vm_compute. reflexivity. Qed.

Lemma read_lines_same_reading :
  Forall2 logparser.same_reading read_lines read_lines'.
Proof. repeat constructor. Qed.

Lemma receiver_blind_to_read_errors_witness :
  logparser.receiver started "/var/log/a.log" orders clock read_lines
  = logparser.receiver started "/var/log/a.log" orders clock read_lines'.
Proof.
  apply (receiver_blind_to_read_errors started "/var/log/a.log" orders clock
           read_lines read_lines' read_lines_same_reading).
Defined.

Lemma receiver_after_Start_returns_witness :
  (logparser.receiver (logparser.Start all_logs ()).1.1 "/var/log/c.log"
     orders clock read_lines).2
  = Returns ().
Proof.
  apply (receiver_after_Start_returns all_logs ()
           (configured "%{PAIRS}" "" [] [] [] []) "/var/log/c.log" orders
           clock read_lines eq_refl eq_refl).
Defined.

Lemma failed_reads_not_ok :
  Forall (λ line, logparser.read_ok line = false) failed_reads.
Proof. repeat constructor. Qed.

Lemma receiver_logs_nil_for_read_errors_witness :
  logparser.receiver started "/var/log/a.log" orders clock failed_reads
  = ([logparser.LogTailError "/var/log/a.log" None;
      logparser.LogTailError "/var/log/a.log" None;
      logparser.WgDone],
     Returns ()).
Proof.
  exact (receiver_logs_nil_for_read_errors started "/var/log/a.log" orders
           clock failed_reads failed_reads_not_ok).
Defined.

End further_examples.
